(** * Orchestration engine: job model, job store, SSH executor and transports

    A shallow embedding of the Go packages [jobs], [controller], [executor]
    and [transport] of the orchestration engine, with the properties of the
    design document stated and settled against it.

    Conventions.
    - A Go [string] is a [string] (a sequence of bytes); a Go [int] is a [Z]
      (no arithmetic is done on them here, so no wrap-around appears).
    - A Go [error] value is an [option error]: [None] is [nil].
    - A [map[string]T] is a [gmap string T].
    - [time.Time] is a [Z], the instant counted from the zero value of
      [time.Time], so that the zero value is [0]. *)

From Stdlib Require Import ZArith Ascii String List Bool Lia DecimalString.
From stdpp Require Import base option list gmap strings.

Local Open Scope Z_scope.

(** ** Go library functions on strings and bytes *)

Module strings.

(** The white space of [strings.TrimSpace] is that of [unicode.IsSpace]:
    the six ASCII bytes tab, line feed, vertical tab, form feed, carriage
    return and space, and the runes U+0085, U+00A0, U+1680, U+2000 to U+200A,
    U+2028, U+2029, U+202F, U+205F and U+3000.

    Go reads the runes of the string with its UTF-8 decoder, forward from the
    left end and backward from the right end, and stops at the first rune
    that is not white space.  The decoder reads a white-space rune exactly
    where the bytes are the encoding of that rune (an encoding is unique:
    over-long forms are refused); any other bytes, well-formed or not, are
    read as a rune that is no white space.  Backward, the decoder looks for
    the nearest lead byte among the last four bytes, which for the two-byte
    and three-byte encodings below is the lead byte of the encoding itself.
    So trimming removes, at each end, the encodings below for as long as the
    string starts, respectively ends, with one. *)
Definition isSpace (c : ascii) : bool :=
  match nat_of_ascii c with
  | 9%nat | 10%nat | 11%nat | 12%nat | 13%nat | 32%nat => true
  | _ => false
  end.

(** U+0085 is [C2 85] and U+00A0 is [C2 A0]. *)
Definition isSpace2 (b0 b1 : ascii) : bool :=
  (N_of_ascii b0 =? 0xC2)%N
  && ((N_of_ascii b1 =? 0x85)%N || (N_of_ascii b1 =? 0xA0)%N).

(** U+1680 is [E1 9A 80]; U+2000 to U+200A are [E2 80 80] to [E2 80 8A];
    U+2028, U+2029 and U+202F are [E2 80 A8], [E2 80 A9] and [E2 80 AF];
    U+205F is [E2 81 9F]; U+3000 is [E3 80 80]. *)
Definition isSpace3 (b0 b1 b2 : ascii) : bool :=
  ((N_of_ascii b0 =? 0xE1)%N && (N_of_ascii b1 =? 0x9A)%N
   && (N_of_ascii b2 =? 0x80)%N)
  || ((N_of_ascii b0 =? 0xE2)%N && (N_of_ascii b1 =? 0x80)%N
      && (((0x80 <=? N_of_ascii b2)%N && (N_of_ascii b2 <=? 0x8A)%N)
          || (N_of_ascii b2 =? 0xA8)%N || (N_of_ascii b2 =? 0xA9)%N
          || (N_of_ascii b2 =? 0xAF)%N))
  || ((N_of_ascii b0 =? 0xE2)%N && (N_of_ascii b1 =? 0x81)%N
      && (N_of_ascii b2 =? 0x9F)%N)
  || ((N_of_ascii b0 =? 0xE3)%N && (N_of_ascii b1 =? 0x80)%N
      && (N_of_ascii b2 =? 0x80)%N).

(** Removing white-space runes from the front of a byte sequence; [two] and
    [three] say which two and three bytes, in the order met, are one. *)
Fixpoint trimRunes (two : ascii -> ascii -> bool)
    (three : ascii -> ascii -> ascii -> bool) (bs : list ascii) : list ascii :=
  match bs with
  | [] => []
  | b0 :: r0 =>
      if isSpace b0 then trimRunes two three r0
      else
        match r0 with
        | [] => bs
        | b1 :: r1 =>
            if two b0 b1 then trimRunes two three r1
            else
              match r1 with
              | [] => bs
              | b2 :: r2 =>
                  if three b0 b1 b2 then trimRunes two three r2 else bs
              end
        end
  end.

(** From the left the bytes are met in their order, from the right in the
    opposite order. *)
Definition trimLeft (bs : list ascii) : list ascii :=
  trimRunes isSpace2 isSpace3 bs.

Definition trimRight (bs : list ascii) : list ascii :=
  rev (trimRunes (fun b1 b0 => isSpace2 b0 b1)
                 (fun b2 b1 b0 => isSpace3 b0 b1 b2) (rev bs)).

Definition TrimLeftSpace (s : string) : string :=
  string_of_list_ascii (trimLeft (list_ascii_of_string s)).

Definition TrimRightSpace (s : string) : string :=
  string_of_list_ascii (trimRight (list_ascii_of_string s)).

Definition TrimSpace (s : string) : string := TrimRightSpace (TrimLeftSpace s).

(** [strings.HasSuffix] and [strings.TrimSuffix], on the byte positions as Go
    computes them: [s[len(s)-len(suffix):] == suffix] and
    [s[:len(s)-len(suffix)]]. *)
Definition HasSuffix (s suffix : string) : bool :=
  (String.length suffix <=? String.length s)%nat &&
  String.eqb
    (String.substring (String.length s - String.length suffix)
       (String.length suffix) s)
    suffix.

Definition TrimSuffix (s suffix : string) : string :=
  if HasSuffix s suffix
  then String.substring 0 (String.length s - String.length suffix) s
  else s.

(** [strings.HasPrefix] and [strings.TrimPrefix]: [s[:len(prefix)] == prefix]
    and [s[len(prefix):]]. *)
Definition HasPrefix (s prefix : string) : bool :=
  (String.length prefix <=? String.length s)%nat &&
  String.eqb (String.substring 0 (String.length prefix) s) prefix.

Definition TrimPrefix (s prefix : string) : string :=
  if HasPrefix s prefix
  then String.substring (String.length prefix)
         (String.length s - String.length prefix) s
  else s.

End strings.

(** ** crypto/sha256 and encoding/hex *)

Module sha256.

Definition mask32 : Z := 0xffffffff.
Definition add32 (a b : Z) : Z := Z.land (a + b) mask32.
Definition rotr (n x : Z) : Z :=
  Z.lor (Z.shiftr x n) (Z.land (Z.shiftl x (32 - n)) mask32).
Definition not32 (x : Z) : Z := Z.lxor x mask32.

Definition Ch (x y z : Z) : Z := Z.lxor (Z.land x y) (Z.land (not32 x) z).
Definition Maj (x y z : Z) : Z :=
  Z.lxor (Z.lxor (Z.land x y) (Z.land x z)) (Z.land y z).
Definition bsig0 (x : Z) : Z := Z.lxor (Z.lxor (rotr 2 x) (rotr 13 x)) (rotr 22 x).
Definition bsig1 (x : Z) : Z := Z.lxor (Z.lxor (rotr 6 x) (rotr 11 x)) (rotr 25 x).
Definition ssig0 (x : Z) : Z := Z.lxor (Z.lxor (rotr 7 x) (rotr 18 x)) (Z.shiftr x 3).
Definition ssig1 (x : Z) : Z := Z.lxor (Z.lxor (rotr 17 x) (rotr 19 x)) (Z.shiftr x 10).

(** The constants of the standard are the first 32 bits of the fractional
    parts of the cube roots (for [K]) and of the square roots (for [H0]) of
    the first primes; they are computed here from that description. *)
Definition isPrime (n : nat) : bool :=
  forallb (fun d => negb (n mod d =? 0)%nat) (seq 2 (n - 2)).

Definition primes (count : nat) : list Z :=
  List.map Z.of_nat (firstn count (List.filter isPrime (seq 2 400))).

(** The integer cube root below [2 ^ bits], one bit at a time from the top. *)
Fixpoint cbrtBits (bits : nat) (n r : Z) : Z :=
  match bits with
  | O => r
  | S b =>
      let r' := r + Z.shiftl 1 (Z.of_nat b) in
      cbrtBits b n (if r' * r' * r' <=? n then r' else r)
  end.

Definition fracCbrt32 (p : Z) : Z := Z.land (cbrtBits 36 (Z.shiftl p 96) 0) mask32.
Definition fracSqrt32 (p : Z) : Z := Z.land (Z.sqrt (Z.shiftl p 64)) mask32.

Definition K : list Z := Eval vm_compute in List.map fracCbrt32 (primes 64).

Definition H0 : list Z := Eval vm_compute in List.map fracSqrt32 (primes 8).

Definition bytes_of_string (s : string) : list Z :=
  List.map (fun c => Z.of_nat (nat_of_ascii c)) (list_ascii_of_string s).

(** Big-endian bytes of [x], [n] of them. *)
Fixpoint be_bytes (n : nat) (x : Z) : list Z :=
  match n with
  | O => []
  | S n' => Z.land (Z.shiftr x (8 * Z.of_nat n')) 0xff :: be_bytes n' x
  end.

Definition pad (msg : list Z) : list Z :=
  let len := Z.of_nat (List.length msg) in
  let zeros := Z.to_nat ((55 - len) mod 64) in
  msg ++ [0x80] ++ List.repeat 0 zeros ++ be_bytes 8 (8 * len).

(** The 32-bit big-endian words of a byte sequence. *)
Fixpoint words (fuel : nat) (bs : list Z) : list Z :=
  match fuel, bs with
  | S fuel', b0 :: b1 :: b2 :: b3 :: rest =>
      (Z.shiftl b0 24 + Z.shiftl b1 16 + Z.shiftl b2 8 + b3) :: words fuel' rest
  | _, _ => []
  end.

(** The message schedule, extended from 16 to 64 words. *)
Fixpoint schedule (n : nat) (w : list Z) : list Z :=
  match n with
  | O => w
  | S n' =>
      let t := List.length w in
      let at_ (k : nat) := nth (t - k) w 0 in
      schedule n'
        (w ++ [add32 (add32 (ssig1 (at_ 2%nat)) (at_ 7%nat))
                     (add32 (ssig0 (at_ 15%nat)) (at_ 16%nat))])
  end.

Definition round (st : list Z) (kw : Z * Z) : list Z :=
  match st with
  | [a; b; c; d; e; f; g; h] =>
      let t1 := add32 (add32 (add32 h (bsig1 e)) (add32 (Ch e f g) (fst kw))) (snd kw) in
      let t2 := add32 (bsig0 a) (Maj a b c) in
      [add32 t1 t2; a; b; c; add32 d t1; e; f; g]
  | _ => st
  end.

Definition compress (h : list Z) (block : list Z) : list Z :=
  let w := schedule 48 block in
  let st := fold_left round (combine K w) h in
  List.map (fun p => add32 (fst p) (snd p)) (combine h st).

Fixpoint blocks (fuel : nat) (h : list Z) (ws : list Z) : list Z :=
  match fuel, ws with
  | _, [] => h
  | O, _ => h
  | S fuel', _ => blocks fuel' (compress h (firstn 16 ws)) (skipn 16 ws)
  end.

(** [sha256.Sum256]: the 32 bytes of the digest. *)
Definition Sum256 (data : string) : list Z :=
  let ws := let p := pad (bytes_of_string data) in words (List.length p) p in
  flat_map (be_bytes 4) (blocks (List.length ws) H0 ws).

End sha256.

Module hex.

Definition hextable : string := "0123456789abcdef".

Definition digit (v : Z) : string :=
  match String.get (Z.to_nat v) hextable with
  | Some c => String c EmptyString
  | None => EmptyString
  end.

(** [hex.EncodeToString]: two lowercase digits per byte. *)
Fixpoint EncodeToString (src : list Z) : string :=
  match src with
  | [] => EmptyString
  | b :: rest => digit (Z.shiftr b 4) +:+ digit (Z.land b 0x0f) +:+ EncodeToString rest
  end.

End hex.

(** ** Go error values

    The dynamic type of an error value matters to the executor, which makes
    a type assertion to the exit error of the ssh package, so the
    constructors follow the dynamic types that occur: [errors.New] and
    [fmt.Errorf] without [%w] give an [errorString]; [fmt.Errorf] with [%w]
    gives a [wrapError] holding the whole formatted message and the wrapped
    error; [ExitError] is [*ssh.ExitError], with the exit status of the
    remote command and the text the library gives it;
    [deadlineExceededError] is the type of [context.DeadlineExceeded].
    Errors that come from the network and ssh libraries are values of this
    type chosen by the environment. *)
Inductive error : Type :=
| errorString (s : string)
| wrapError (msg : string) (err : error)
| ExitError (status : Z) (msg : string)
| deadlineExceededError.

Module errors.
Definition New (text : string) : error := errorString text.
End errors.

(** The method [Error()]. *)
Definition errorText (e : error) : string :=
  match e with
  | errorString s => s
  | wrapError msg _ => msg
  | ExitError _ msg => msg
  | deadlineExceededError => "context deadline exceeded"
  end.

(** The type assertion of an error to [*ssh.ExitError]: it looks at the
    dynamic type only and does not unwrap. *)
Definition asExitError (e : error) : option Z :=
  match e with
  | ExitError status _ => Some status
  | _ => None
  end.

(** [time.Time]: an instant, counted from that of the zero value, and the
    location it is presented in.  [time.Now()] gives the instant in local
    time, the method [UTC()] the same instant in UTC; the zero value is in
    UTC, and [IsZero] looks at the instant only.  [time.Duration] is a number
    of nanoseconds. *)
Inductive Location : Type := UTC | Local.
Record Time : Type := { instant : Z; location : Location }.
Definition zeroTime : Time := {| instant := 0; location := UTC |}.
Definition Time_UTC (t : Time) : Time :=
  {| instant := instant t; location := UTC |}.
Definition Duration : Type := Z.
Definition Second : Duration := 1000000000.

(** ** Package jobs *)

Module jobs.

Definition Status : Type := string.
Definition StatusPending : Status := "pending".
Definition StatusRunning : Status := "running".
Definition StatusFailed : Status := "failed".
Definition StatusSucceeded : Status := "succeeded".

Record CredentialBundle : Type := {
  Username : string;
  Password : string
}.

Record JobDefinition : Type := {
  ID : string;
  TargetHost : string;
  TargetPort : Z;
  TargetUser : string;
  Command : string;
  Arguments : list string;
  AllowTTY : bool;
  Checksum : string;
  Metadata : gmap string string;
  Credentials : CredentialBundle
}.

(** The fields [Status] and [Metadata] of the Go struct are [ResultStatus]
    and [ResultMetadata] here, the names being taken. *)
Record Result : Type := {
  JobID : string;
  ResultStatus : Status;
  StartedAt : Time;
  FinishedAt : Time;
  ExitCode : Z;
  Stdout : string;
  Stderr : string;
  Error : string;
  ResultMetadata : gmap string string
}.

(** The zero value [jobs.Result{}]. *)
Definition zeroResult : Result :=
  {| JobID := ""; ResultStatus := ""; StartedAt := zeroTime;
     FinishedAt := zeroTime;
     ExitCode := 0; Stdout := ""; Stderr := ""; Error := "";
     ResultMetadata := ∅ |}.

Definition CredentialBundle_Validate (c : CredentialBundle) : option error :=
  if String.eqb (strings.TrimSpace (Username c)) "" then
    Some (errors.New "username required")
  else if String.eqb (strings.TrimSpace (Password c)) "" then
    Some (errors.New "password required")
  else None.

Definition Validate (j : JobDefinition) : option error :=
  if String.eqb (ID j) "" then
    Some (errors.New "job id cannot be empty")
  else if String.eqb (TargetHost j) "" then
    Some (errorString ("job " +:+ ID j +:+ " missing target_host"))
  else if String.eqb (TargetUser j) "" then
    Some (errorString ("job " +:+ ID j +:+ " missing target_user"))
  else if String.eqb (Command j) "" then
    Some (errorString ("job " +:+ ID j +:+ " missing command"))
  else if String.eqb (Checksum j) "" then
    Some (errorString ("job " +:+ ID j +:+ " missing checksum"))
  else
    match CredentialBundle_Validate (Credentials j) with
    | Some err =>
        Some (wrapError
                ("job " +:+ ID j +:+ " credentials invalid: " +:+ errorText err)
                err)
    | None => None
    end.

End jobs.

(** [ensureChecksum] of the command-line client: the digest the submitter
    puts in the job. *)
Definition ensureChecksum (command : string) : string :=
  hex.EncodeToString (sha256.Sum256 command).

(** ** Package controller: the in-memory job store *)

Module controller.
Import jobs.

(** [result] is a [*jobs.Result]: [None] is the nil pointer. *)
Record jobRecord : Type := {
  job : JobDefinition;
  status : Status;
  result : option Result
}.

(** The store without its mutex: every operation below is one critical
    section, so it is a function from the state before to the state after.
    The map holds a pointer to a record made by [Enqueue] for that key alone,
    so no two keys share a record. *)
Record Store : Type := {
  queue : list string;
  records : gmap string jobRecord
}.

Definition NewStore : Store := {| queue := []; records := ∅ |}.

Definition Enqueue (s : Store) (j : JobDefinition) : Store * option error :=
  match Validate j with
  | Some err => (s, Some err)
  | None =>
      match records s !! ID j with
      | Some _ => (s, Some (errorString ("job " +:+ ID j +:+ " already exists")))
      | None =>
          ({| queue := queue s ++ [ID j];
              records := <[ID j := {| job := j; status := StatusPending;
                                      result := None |}]> (records s) |},
           None)
      end
  end.

(** What a call gives back: its results, or a run-time panic. *)
Inductive outcome (A : Type) : Type :=
| Returned (a : A)
| Panicked.
Arguments Returned {A} a.
Arguments Panicked {A}.

(** [Next] returns [(nil, false)], here [None], or [(&jobCopy, true)], here
    [Some jobCopy].  The queue is advanced before the record is looked up; a
    queued ID without a record makes [rec] nil and the assignment to
    [rec.status] panics. *)
Definition Next (s : Store) : Store * outcome (option JobDefinition) :=
  match queue s with
  | [] => (s, Returned None)
  | jobID :: rest =>
      match records s !! jobID with
      | None => ({| queue := rest; records := records s |}, Panicked)
      | Some rec =>
          ({| queue := rest;
              records := <[jobID := {| job := job rec; status := StatusRunning;
                                       result := result rec |}]> (records s) |},
           Returned (Some (job rec)))
      end
  end.

Definition Complete (s : Store) (r : Result) : Store * option error :=
  match records s !! JobID r with
  | None => (s, Some (errorString ("job " +:+ JobID r +:+ " not found")))
  | Some rec =>
      ({| queue := queue s;
          records := <[JobID r := {| job := job rec; status := ResultStatus r;
                                     result := Some r |}]> (records s) |},
       None)
  end.

Definition Lookup (s : Store) (jobID : string) : Status * option Result * bool :=
  match records s !! jobID with
  | None => ("", None, false)
  | Some rec =>
      match result rec with
      | None => (status rec, None, true)
      | Some res => (status rec, Some res, true)
      end
  end.

(** The four operations as commands, and a run of them. *)
Inductive op : Type :=
| OpEnqueue (j : JobDefinition)
| OpNext
| OpComplete (r : Result)
| OpLookup (jobID : string).

Definition step (s : Store) (o : op) : Store :=
  match o with
  | OpEnqueue j => fst (Enqueue s j)
  | OpNext => fst (Next s)
  | OpComplete r => fst (Complete s r)
  | OpLookup _ => s
  end.

Definition run (s : Store) (ops : list op) : Store := fold_left step ops s.

Definition statusOf (s : Store) (jobID : string) : option Status :=
  status <$> records s !! jobID.

(** *** The order of statuses *)

Definition terminal (st : Status) : bool :=
  String.eqb st StatusSucceeded || String.eqb st StatusFailed.

(** One move of a status along pending, running, terminal.  Keeping the
    status, or writing a terminal status over a terminal one, is no move
    back. *)
Definition forward (old new : Status) : bool :=
  String.eqb old new
  || (String.eqb old StatusPending && String.eqb new StatusRunning)
  || (String.eqb old StatusRunning && terminal new)
  || (terminal old && terminal new).

(** An operation moves every record forward, and a record it creates starts
    as pending. *)
Definition stepForward (s : Store) (o : op) : Prop :=
  forall jobID : string,
    match statusOf s jobID, statusOf (step s o) jobID with
    | Some old, Some new => forward old new = true
    | None, Some new => new = StatusPending
    | Some _, None => False
    | None, None => True
    end.

Fixpoint movesForward (s : Store) (ops : list op) : Prop :=
  match ops with
  | [] => True
  | o :: rest => stepForward s o /\ movesForward (step s o) rest
  end.

(** The use the engine makes of [Complete]: the result carries a terminal
    status and its job, when it has a record, is no longer pending. *)
Definition completesDequeued (s : Store) (r : Result) : bool :=
  terminal (ResultStatus r)
  && match statusOf s (JobID r) with
     | Some st => negb (String.eqb st StatusPending)
     | None => true
     end.

Fixpoint engineUse (s : Store) (ops : list op) : bool :=
  match ops with
  | [] => true
  | o :: rest =>
      match o with
      | OpComplete r => completesDequeued s r
      | _ => true
      end
      && engineUse (step s o) rest
  end.

(** Every queued ID has a record: what [Next] relies on when it dereferences
    the record of the head of the queue. *)
Definition queuedHaveRecords (s : Store) : Prop :=
  forall jobID, jobID ∈ queue s -> is_Some (records s !! jobID).

(** The invariant of the store under that use: the queue holds each ID once,
    the queued jobs are exactly the pending ones, and every status is one of
    the four. *)
Definition wellFormed (s : Store) : Prop :=
  NoDup (queue s)
  /\ (forall jobID, jobID ∈ queue s -> statusOf s jobID = Some StatusPending)
  /\ (forall jobID st, statusOf s jobID = Some st ->
        st = StatusPending \/ st = StatusRunning \/ terminal st = true).

End controller.

(** ** Package executor: running a job over SSH *)

Module executor.
Import jobs.

Record SSHCredentials : Type := {
  Address : string;
  Username : string;
  Password : string;
  Fingerprint : string
}.

(** [AllowedCommands] is a [map[string]struct{}], a set of commands. *)
Record SSHExecutor : Type := {
  AllowedCommands : gset string;
  DialTimeout : Duration
}.

(** How the [select] at the end of [Execute] resolves: the context is done
    first, with its error and what the buffers hold at that moment, or the
    remote command finishes first. *)
Inductive ctxError : Type := Canceled | DeadlineExceeded.

Definition ctxErr (c : ctxError) : error :=
  match c with
  | Canceled => errors.New "context canceled"
  | DeadlineExceeded => deadlineExceededError
  end.

Inductive runOutcome : Type :=
| CtxDone (c : ctxError) (stdout stderr : string)
| RunDone (err : option error) (stdout stderr : string).

(** The calls that reach the network, in the order they were made. *)
Inductive event : Type :=
| EvDial (address : string)
| EvHandshake (address user : string)
| EvNewSession
| EvRequestPty
| EvRun (command : string)
| EvSessionClose
| EvClientClose.

(** What lies outside the program: the clock and the behaviour of the
    network and of the remote host at each call the executor makes.
    [clock n calls] is the instant the clock shows at its [n]-th reading when
    that reading is taken after the network calls [calls] were made: what a
    reading gives depends on the moment it is taken at. *)
Record Env : Type := {
  clock : nat -> list event -> Z;
  dial : option error;
  hostKeyFingerprint : string;
  authenticate : option error;
  newSession : option error;
  requestPty : option error;
  sessionRun : runOutcome
}.

Record World : Type := {
  ticks : nat;
  trace : list event
}.

(** A state monad over the world. *)
Definition M (A : Type) : Type := World -> A * World.
Definition ret {A} (a : A) : M A := fun w => (a, w).
Definition bind {A B} (m : M A) (k : A -> M B) : M B :=
  fun w => let (a, w') := m w in k a w'.
Notation "x <- m ;; k" := (bind m (fun x => k))
  (at level 100, m at next level, right associativity).
Notation "m ;;; k" := (bind m (fun _ => k))
  (at level 100, right associativity).

(** [time.Now()], and [time.Now().UTC()]. *)
Definition now (env : Env) : M Time :=
  fun w => ({| instant := clock env (ticks w) (trace w); location := Local |},
            {| ticks := S (ticks w); trace := trace w |}).
Definition nowUTC (env : Env) : M Time :=
  t <- now env ;; ret (Time_UTC t).
Definition emit (e : event) : M unit :=
  fun w => (tt, {| ticks := ticks w; trace := trace w ++ [e] |}).

Definition statusFromError (err : option error) : Status :=
  match err with
  | Some _ => StatusFailed
  | None => StatusSucceeded
  end.

Definition errorString_ (err : option error) : string :=
  match err with
  | None => ""
  | Some e => errorText e
  end.

Definition exitCodeOf (runErr : option error) : Z :=
  match runErr with
  | None => 0
  | Some e =>
      match asExitError e with
      | Some status => status
      | None => -1
      end
  end.

Definition buildResult (env : Env) (e : SSHExecutor) (job : JobDefinition)
    (started : Time) (stdout stderr : string) (runErr : option error) : M Result :=
  finished <- nowUTC env ;;
  ret {| JobID := ID job;
         ResultStatus := statusFromError runErr;
         StartedAt := started;
         FinishedAt := finished;
         ExitCode := exitCodeOf runErr;
         Stdout := stdout;
         Stderr := stderr;
         Error := errorString_ runErr;
         ResultMetadata := Metadata job |}.

Definition validateJob (e : SSHExecutor) (job : JobDefinition) : option error :=
  match Validate job with
  | Some err => Some err
  | None =>
      if (0 <? size (AllowedCommands e))%nat
         && negb (bool_decide (Command job ∈ AllowedCommands e))
      then Some (errorString ("command " +:+ Command job +:+ " not allowed"))
      else if negb (String.eqb (hex.EncodeToString (sha256.Sum256 (Command job)))
                               (Checksum job))
      then Some (errors.New "checksum mismatch")
      else None
  end.

(** The callback given to the handshake: any key when no fingerprint is
    pinned, the pinned one otherwise. *)
Definition makeHostKeyCallback (expected : string)
    (hostname fingerprint : string) : option error :=
  if String.eqb expected "" then None
  else if negb (String.eqb fingerprint expected) then
    Some (errorString ("host key mismatch for " +:+ hostname +:+ ": got "
                       +:+ fingerprint +:+ " want " +:+ expected))
  else None.

(** [newClient]: [None] is the client, [Some err] the error. *)
Definition newClient (env : Env) (e : SSHExecutor) (creds : SSHCredentials)
    : M (option error) :=
  if String.eqb (Address creds) "" || String.eqb (Username creds) "" then
    ret (Some (errors.New "missing SSH address or username"))
  else if String.eqb (Password creds) "" then
    ret (Some (errors.New "missing password"))
  else
    emit (EvDial (Address creds)) ;;;
    match dial env with
    | Some err =>
        ret (Some (wrapError ("dial " +:+ Address creds +:+ ": " +:+ errorText err) err))
    | None =>
        emit (EvHandshake (Address creds) (Username creds)) ;;;
        let hs :=
          match makeHostKeyCallback (Fingerprint creds) (Address creds)
                  (hostKeyFingerprint env) with
          | Some err =>
              Some (wrapError ("ssh: handshake failed: " +:+ errorText err) err)
          | None => authenticate env
          end in
        match hs with
        | Some err => ret (Some (wrapError ("handshake: " +:+ errorText err) err))
        | None => ret None
        end
    end.

(** [Execute].  The deferred [client.Close()] and [session.Close()] run after
    the returned values are computed, last deferred first. *)
Definition Execute (env : Env) (e : SSHExecutor) (job : JobDefinition)
    (creds : SSHCredentials) : M (Result * option error) :=
  started <- nowUTC env ;;
  match validateJob e job with
  | Some err =>
      r <- buildResult env e job started "" "" (Some err) ;;
      ret (r, Some err)
  | None =>
      c <- newClient env e creds ;;
      match c with
      | Some err =>
          r <- buildResult env e job started "" "" (Some err) ;;
          ret (r, Some err)
      | None =>
          emit EvNewSession ;;;
          match newSession env with
          | Some err0 =>
              let err := wrapError ("start session: " +:+ errorText err0) err0 in
              r <- buildResult env e job started "" "" (Some err) ;;
              emit EvClientClose ;;;
              ret (r, Some err)
          | None =>
              pty <- (if AllowTTY job
                      then emit EvRequestPty ;;; ret (requestPty env)
                      else ret None) ;;
              match pty with
              | Some err0 =>
                  emit EvSessionClose ;;;
                  emit EvClientClose ;;;
                  ret (zeroResult,
                       Some (wrapError ("request pty: " +:+ errorText err0) err0))
              | None =>
                  emit (EvRun (Command job)) ;;;
                  match sessionRun env with
                  | CtxDone c stdout stderr =>
                      let err := ctxErr c in
                      r <- buildResult env e job started stdout stderr (Some err) ;;
                      emit EvSessionClose ;;;
                      emit EvClientClose ;;;
                      ret (r, Some err)
                  | RunDone err stdout stderr =>
                      r <- buildResult env e job started stdout stderr err ;;
                      emit EvSessionClose ;;;
                      emit EvClientClose ;;;
                      ret (r, err)
                  end
              end
          end
      end
  end.

End executor.

(** ** Library functions used by the transports *)

Module strconv.
(** [%d] of [fmt]: the decimal digits of an integer. *)
Definition Itoa (n : Z) : string := DecimalString.NilEmpty.string_of_int (Z.to_int n).
End strconv.

Module filepath.

(** [os.IsPathSeparator] on Unix. *)
Definition IsPathSeparator (c : ascii) : bool := Ascii.eqb c "/".

(** The loop of [filepath.Ext]: [n] is [i + 1], the index runs down from the
    last byte and stops at a separator. *)
Fixpoint extLoop (path : string) (n : nat) : string :=
  match n with
  | O => ""
  | S i =>
      match String.get i path with
      | None => ""
      | Some c =>
          if IsPathSeparator c then ""
          else if Ascii.eqb c "." then
            String.substring i (String.length path - i) path
          else extLoop path i
      end
  end.

Definition Ext (path : string) : string := extLoop path (String.length path).

End filepath.

Module http.
Definition StatusOK : Z := 200.
Definition StatusAccepted : Z := 202.
Definition StatusNoContent : Z := 204.

Record Client : Type := { Timeout : Duration }.

(** One request as the caller sees it: building the request fails, sending
    it fails, reading the body fails, or a response with its body arrives. *)
Inductive exchange : Type :=
| BadRequest (err : error)
| DoFails (err : error)
| ReadFails (StatusCode : Z) (err : error)
| Response (StatusCode : Z) (body : string).
End http.

(** ** Package transport *)

Module transport.
Import jobs.

(** What a polling loop meets at the top of an iteration: the stop channel
    is closed, or the iteration goes on with what the outside answers. *)
Inductive turn (A : Type) : Type :=
| Stop
| Go (a : A).
Arguments Stop {A}.
Arguments Go {A} a.

(** The three results of [NextJob]: the job and its receipt, an error, or
    the loop still running when the recorded turns are used up. *)
Inductive polled : Type :=
| GotJob (job : JobDefinition) (receipt : string)
| Failed (err : error)
| Polling.

Module HTTPTransport.

Section Codec.

(** [encoding/json] on the two structs, outside the program. *)
Variable json_Unmarshal : string -> error + JobDefinition.
Variable json_Marshal : Result -> error + string.

Record t : Type := {
  BaseURL : string;
  Client : option http.Client;
  PollInterval : Duration
}.

Inductive event : Type :=
| EvGet (url : string)
| EvPost (url payload : string)
| EvSleep (d : Duration).

Definition sleepInterval (tr : t) : Duration :=
  if PollInterval tr <=? 0 then 2 * Second else PollInterval tr.

Definition httpClient (tr : t) : http.Client :=
  match Client tr with
  | Some c => c
  | None => {| http.Timeout := 30 * Second |}
  end.

Definition pollOnce (tr : t) (x : http.exchange)
    (again : polled * list event) : polled * list event :=
  let get := EvGet (BaseURL tr +:+ "/v1/queue/next") in
  match x with
  | http.BadRequest err => (Failed err, [])
  | http.DoFails _ =>
      (fst again, get :: EvSleep (sleepInterval tr) :: snd again)
  | http.ReadFails _ readErr => (Failed readErr, [get])
  | http.Response code body =>
      if code =? http.StatusNoContent then
        (fst again, get :: EvSleep (sleepInterval tr) :: snd again)
      else if code =? http.StatusOK then
        match json_Unmarshal body with
        | inl err => (Failed err, [get])
        | inr job =>
            match Validate job with
            | Some err => (Failed err, [get])
            | None => (GotJob job (ID job), [get])
            end
        end
      else
        (Failed (errorString ("controller returned " +:+ strconv.Itoa code
                              +:+ ": " +:+ strings.TrimSpace body)),
         [get])
  end.

Fixpoint pollLoop (tr : t) (turns : list (turn http.exchange))
    : polled * list event :=
  match turns with
  | [] => (Polling, [])
  | Stop :: _ => (Failed (errors.New "polling stopped"), [])
  | Go x :: rest => pollOnce tr x (pollLoop tr rest)
  end.

Definition NextJob (tr : t) (turns : list (turn http.exchange))
    : polled * list event :=
  if String.eqb (strings.TrimSpace (BaseURL tr)) "" then
    (Failed (errors.New "controller base URL not configured"), [])
  else pollLoop tr turns.

Definition WriteResult (tr : t) (jobID : string) (result : Result)
    (x : http.exchange) : option error * list event :=
  if String.eqb (strings.TrimSpace jobID) "" then
    (Some (errors.New "job id required for result submission"), [])
  else
    match json_Marshal result with
    | inl err => (Some err, [])
    | inr payload =>
        let post := EvPost (BaseURL tr +:+ "/v1/jobs/" +:+ jobID +:+ "/results")
                           payload in
        match x with
        | http.BadRequest err => (Some err, [])
        | http.DoFails err => (Some err, [post])
        | http.ReadFails _ readErr => (Some readErr, [post])
        | http.Response code body =>
            if negb (code =? http.StatusAccepted) then
              (Some (errorString ("controller rejected result ("
                                  +:+ strconv.Itoa code +:+ "): "
                                  +:+ strings.TrimSpace body)),
               [post])
            else (None, [post])
        end
    end.

End Codec.

End HTTPTransport.

Module FilesystemTransport.

Record t : Type := {
  InboxDir : string;
  PollInterval : Duration
}.

(** One call of the function given to [filepath.WalkDir]: the path, whether
    the entry is a directory, and the error of the walk at that entry. *)
Record visit : Type := {
  path : string;
  IsDir : bool;
  walkErr : option error
}.

(** The file system as the transport meets it: the visits of a walk of the
    inbox, in the order of the walk, and what reading a file gives. *)
Record FS : Type := {
  walk : list visit;
  ReadFile : string -> error + string
}.

Inductive event : Type :=
| EvWriteFile (name data : string) (perm : Z)
| EvSleep (d : Duration).

(** The test of the walk function on a path that is not a directory. *)
Definition isJobFile (p : string) : bool :=
  String.eqb (filepath.Ext p) ".json"
  && String.eqb (filepath.Ext (strings.TrimSuffix p (filepath.Ext p))) ".job".

(** The walk of [scanInbox]: [selected] and the error of [WalkDir].  The
    walk function returns the error of the walk, nil to go on, or
    [fs.SkipAll], which ends the walk without error. *)
Fixpoint walkInbox (vs : list visit) : string * option error :=
  match vs with
  | [] => ("", None)
  | v :: rest =>
      match walkErr v with
      | Some err => ("", Some err)
      | None =>
          if IsDir v then walkInbox rest
          else if negb (String.eqb (filepath.Ext (path v)) ".json") then
            walkInbox rest
          else if negb (String.eqb
                          (filepath.Ext
                             (strings.TrimSuffix (path v) (filepath.Ext (path v))))
                          ".job") then
            walkInbox rest
          else (path v, None)
      end
  end.

Section Codec.

Variable json_Unmarshal : string -> error + JobDefinition.
Variable json_MarshalIndent : Result -> string -> string -> error + string.

(** [scanInbox] returns [(path, job, err)]; the job is a pointer, [None]
    when nil. *)
Definition scanInbox (tr : t) (fs : FS)
    : string * option JobDefinition * option error :=
  let (selected, err) := walkInbox (walk fs) in
  if bool_decide (err <> None) || String.eqb selected "" then ("", None, err)
  else
    match ReadFile fs selected with
    | inl err => ("", None, Some err)
    | inr fileData =>
        match json_Unmarshal fileData with
        | inl err => ("", None, Some err)
        | inr job =>
            match Validate job with
            | Some err => ("", None, Some err)
            | None => (selected, Some job, None)
            end
        end
    end.

(** [NextJob] over the file systems found at successive scans. *)
Fixpoint pollLoop (tr : t) (turns : list (turn FS)) : polled * list event :=
  match turns with
  | [] => (Polling, [])
  | Stop :: _ => (Failed (errors.New "polling stopped"), [])
  | Go fs :: rest =>
      match scanInbox tr fs with
      | (jobPath, Some job, None) => (GotJob job jobPath, [])
      | _ =>
          let again := pollLoop tr rest in
          (fst again, EvSleep (PollInterval tr) :: snd again)
      end
  end.

Definition NextJob (tr : t) (turns : list (turn FS)) : polled * list event :=
  if String.eqb (InboxDir tr) "" then
    (Failed (errors.New "inbox directory not configured"), [])
  else pollLoop tr turns.

(** [WriteResult]: [writeErr] is what [os.WriteFile] answers; the permission
    bits are octal 640. *)
Definition WriteResult (tr : t) (jobPath : string) (result : Result)
    (writeErr : option error) : option error * list event :=
  let resultPath := jobPath +:+ ".result.json" in
  match json_MarshalIndent result "" " " with
  | inl err => (Some err, [])
  | inr payload => (writeErr, [EvWriteFile resultPath payload 0x1a0])
  end.

End Codec.

End FilesystemTransport.

End transport.

(** ** Runs of the store: the jobs accepted and the jobs handed out *)

(** The jobs whose [Enqueue] succeeded along a run, in the order of the
    calls. *)
Fixpoint accepted (s : controller.Store) (ops : list controller.op)
    : list jobs.JobDefinition :=
  match ops with
  | [] => []
  | o :: rest =>
      match o with
      | controller.OpEnqueue j =>
          match snd (controller.Enqueue s j) with
          | None => [j]
          | Some _ => []
          end
      | _ => []
      end ++ accepted (controller.step s o) rest
  end.

(** The jobs the calls of [Next] returned along a run, in the order of the
    calls. *)
Fixpoint served (s : controller.Store) (ops : list controller.op)
    : list jobs.JobDefinition :=
  match ops with
  | [] => []
  | o :: rest =>
      match o with
      | controller.OpNext =>
          match snd (controller.Next s) with
          | controller.Returned (Some j) => [j]
          | _ => []
          end
      | _ => []
      end ++ served (controller.step s o) rest
  end.

(** The jobs waiting in a store: their IDs are the queue and each is the job
    of the record under its ID. *)
Definition waitingJobs (s : controller.Store) (js : list jobs.JobDefinition)
    : Prop :=
  List.map jobs.ID js = controller.queue s
  /\ forall j, j ∈ js ->
       controller.job <$> controller.records s !! jobs.ID j = Some j.

(** A run has a [Complete] for the job. *)
Fixpoint completes (jobID : string) (ops : list controller.op) : bool :=
  match ops with
  | [] => false
  | controller.OpComplete r :: rest =>
      String.eqb (jobs.JobID r) jobID || completes jobID rest
  | _ :: rest => completes jobID rest
  end.

(** ** The engine command: helpers of its main function *)

Module engine.
Import jobs.

Record ExecutionConfig : Type := {
  AllowedCommands : list string;
  DialTimeoutSeconds : Z;
  JobTimeoutSeconds : Z;
  PrivateKeyPath : string;
  Password : string;
  HostKeyFingerprints : gmap string string
}.

(** The value of a 64-bit signed integer after an operation that may wrap. *)
Definition int64 (x : Z) : Z := (x + 2 ^ 63) mod 2 ^ 64 - 2 ^ 63.

Definition pollInterval (seconds : Z) : Duration :=
  if seconds <=? 0 then 5 * Second else int64 (seconds * Second).

Definition timeoutOrDefault (seconds : Z) (fallback : Duration) : Duration :=
  if seconds <=? 0 then fallback else int64 (seconds * Second).

(** The map is a set of commands; the nil map of an empty list is the empty
    set, which every reader of the map treats alike. *)
Definition buildAllowlist (commands : list string) : gset string :=
  if (length commands =? 0)%nat then ∅
  else
    fold_left
      (fun (allow : gset string) (cmd : string) =>
         if String.eqb (strings.TrimSpace cmd) "" then allow
         else {[cmd]} ∪ allow)
      commands ∅.

Definition effectivePort (port : Z) : Z := if port <=? 0 then 22 else port.

(** [fmt.Sprintf("%s:%d", host, port)]. *)
Definition hostPort (host : string) (port : Z) : string :=
  host +:+ ":" +:+ strconv.Itoa port.

(** [buildCredentials].  The key read at start-up is passed in and dropped:
    the credentials of the executor have no field for it.  A key missing
    from the fingerprint table gives the empty string. *)
Definition buildCredentials (job : JobDefinition) (execCfg : ExecutionConfig)
    (privateKey : list Z) : executor.SSHCredentials :=
  let address := hostPort (TargetHost job) (effectivePort (TargetPort job)) in
  let fpKey :=
    if negb (TargetPort job =? 0)
    then hostPort (TargetHost job) (TargetPort job)
    else TargetHost job in
  {| executor.Address := address;
     executor.Username := TargetUser job;
     executor.Password := Password execCfg;
     executor.Fingerprint :=
       default "" (HostKeyFingerprints execCfg !! fpKey) |}.

End engine.

(** ** The controller command: its HTTP handlers *)

Module controllerMain.
Import jobs controller.

(** What a handler writes: a status code and a body, the body being a line
    of text or the JSON encoding of a value. *)
Inductive body : Type :=
| NoBody
| Text (s : string)
| StatusJSON (st : Status)
| ResultJSON (r : Result)
| JobJSON (j : JobDefinition).

Record response : Type := {
  StatusCode : Z;
  Body : body
}.

Definition newline : string := String (ascii_of_nat 10) EmptyString.

(** [http.Error] and [http.NotFound]. *)
Definition httpError (msg : string) (code : Z) : response :=
  {| StatusCode := code; Body := Text (msg +:+ newline) |}.
Definition NotFound : response := httpError "404 page not found" 404.

Definition withJobID (r : Result) (jobID : string) : Result :=
  {| JobID := jobID; ResultStatus := ResultStatus r; StartedAt := StartedAt r;
     FinishedAt := FinishedAt r; ExitCode := ExitCode r; Stdout := Stdout r;
     Stderr := Stderr r; Error := Error r; ResultMetadata := ResultMetadata r |}.

(** [decoded] is what decoding the request body gives. *)
Definition handleSubmit (store : Store) (decoded : error + JobDefinition)
    : Store * response :=
  match decoded with
  | inl err =>
      (store, httpError ("invalid job payload: " +:+ errorText err) 400)
  | inr job =>
      match Enqueue store job with
      | (store', Some err) => (store', httpError (errorText err) 400)
      | (store', None) => (store', {| StatusCode := 202; Body := NoBody |})
      end
  end.

Definition handleResult (store : Store) (path : string)
    (decoded : error + Result) : Store * response :=
  let jobID :=
    strings.TrimSuffix (strings.TrimPrefix path "/v1/jobs/") "/results" in
  if String.eqb jobID "" then (store, httpError "missing job id" 400)
  else
    match decoded with
    | inl err =>
        (store, httpError ("invalid result payload: " +:+ errorText err) 400)
    | inr result =>
        let result :=
          if String.eqb (JobID result) "" then withJobID result jobID
          else result in
        match Complete store result with
        | (store', Some err) => (store', httpError (errorText err) 400)
        | (store', None) => (store', {| StatusCode := 202; Body := NoBody |})
        end
    end.

(** Without a call to [WriteHeader] the status is 200. *)
Definition handleStatus (store : Store) (path : string) : response :=
  let jobID := strings.TrimPrefix path "/v1/jobs/" in
  if String.eqb jobID "" then NotFound
  else
    match Lookup store jobID with
    | (_, _, false) => NotFound
    | (status, None, true) => {| StatusCode := 202; Body := StatusJSON status |}
    | (_, Some result, true) => {| StatusCode := 200; Body := ResultJSON result |}
    end.

Definition handleNext (store : Store) : Store * outcome response :=
  match Next store with
  | (store', Panicked) => (store', Panicked)
  | (store', Returned None) =>
      (store', Returned {| StatusCode := 204; Body := NoBody |})
  | (store', Returned (Some job)) =>
      (store', Returned {| StatusCode := 200; Body := JobJSON job |})
  end.

End controllerMain.

(** ** The command-line client *)

Module orchcli.
Import jobs.

(** [ensureJobID]: [random] is what [rand.Read] put in the 16-byte buffer. *)
Definition ensureJobID (current : string) (random : list Z) : string :=
  if negb (String.eqb (strings.TrimSpace current) "") then current
  else hex.EncodeToString random.

(** One round of [pollResult]: the GET fails, or an answer comes with its
    status and the bytes read from its body (the error of reading is
    dropped by the code). *)
Inductive answer : Type :=
| GetFails (err : error)
| Answer (StatusCode : Z) (body : string).

Inductive event : Type :=
| EvGet (url : string)
| EvPost (url payload : string)
| EvSleep (d : Duration)
| EvPrint (r : Result).

Section Codec.

Variable json_Unmarshal_result : string -> error + Result.
Variable json_Marshal_job : JobDefinition -> error + string.

(** [submitJob]: [x] is what the POST meets. *)
Definition submitJob (baseURL : string) (job : JobDefinition) (x : answer)
    : option error * list event :=
  match json_Marshal_job job with
  | inl err => (Some err, [])
  | inr payload =>
      let post := EvPost (baseURL +:+ "/v1/jobs") payload in
      match x with
      | GetFails err => (Some err, [post])
      | Answer code body =>
          if negb (code =? http.StatusAccepted) then
            (Some (errorString ("controller rejected job (" +:+ strconv.Itoa code
                                +:+ "): " +:+ strings.TrimSpace body)),
             [post])
          else (None, [post])
      end
  end.

(** [pollResult] over the answers met: [None] when they are used up and the
    loop is still running, [Some] of what it returns otherwise. *)
Fixpoint pollResult (baseURL jobID : string) (answers : list answer)
    : option (option error) * list event :=
  match answers with
  | [] => (None, [])
  | x :: rest =>
      let get := EvGet (baseURL +:+ "/v1/jobs/" +:+ jobID) in
      match x with
      | GetFails _ =>
          let again := pollResult baseURL jobID rest in
          (fst again, get :: EvSleep (2 * Second) :: snd again)
      | Answer code body =>
          if code =? http.StatusAccepted then
            let again := pollResult baseURL jobID rest in
            (fst again, get :: EvSleep (2 * Second) :: snd again)
          else if code =? http.StatusOK then
            match json_Unmarshal_result body with
            | inl err => (Some (Some err), [get])
            | inr result => (Some None, [get; EvPrint result])
            end
          else
            (Some (Some (errorString ("controller returned " +:+ strconv.Itoa code
                                      +:+ ": " +:+ strings.TrimSpace body))),
             [get])
      end
  end.

End Codec.

End orchcli.

(** ** Predicates on strings used to state properties *)

(** The bytes are a sequence of white-space runes, with nothing else. *)
Fixpoint blankRunes (two : ascii -> ascii -> bool)
    (three : ascii -> ascii -> ascii -> bool) (bs : list ascii) : bool :=
  match bs with
  | [] => true
  | b0 :: r0 =>
      if strings.isSpace b0 then blankRunes two three r0
      else
        match r0 with
        | [] => false
        | b1 :: r1 =>
            if two b0 b1 then blankRunes two three r1
            else
              match r1 with
              | [] => false
              | b2 :: r2 => three b0 b1 b2 && blankRunes two three r2
              end
        end
  end.

(** The string is empty or made of white space only, ASCII or Unicode. *)
Definition blank (s : string) : bool :=
  blankRunes strings.isSpace2 strings.isSpace3 (list_ascii_of_string s).

(** Strings of white space and strings that only look like it: a no-break
    space U+00A0, an em space U+2003 between two spaces, the byte A0 alone,
    which is no encoding of anything, and a word between Unicode spaces. *)
Definition nbsp : string := String (ascii_of_nat 194) (String (ascii_of_nat 160) "").
Definition emSpaced : string :=
  String " " (String (ascii_of_nat 226) (String (ascii_of_nat 128)
    (String (ascii_of_nat 131) (String " " "")))).
Definition loneA0 : string := String (ascii_of_nat 160) "".
Definition paddedWord : string :=
  nbsp +:+ "up" +:+ String (ascii_of_nat 227) (String (ascii_of_nat 128)
    (String (ascii_of_nat 128) "")).

(** Every byte of the string is one of [0-9a-f]. *)
Fixpoint lowerHex (s : string) : bool :=
  match s with
  | EmptyString => true
  | String c s' =>
      match String.index 0 (String c EmptyString) hex.hextable with
      | Some _ => lowerHex s'
      | None => false
      end
  end.

(** ** Predicates on what the polling loops meet *)

(** An exchange after which the HTTP transport polls again: the request
    could not be sent, or the answer is 204. *)
Definition httpWaits (x : http.exchange) : bool :=
  match x with
  | http.DoFails _ => true
  | http.Response code _ => code =? http.StatusNoContent
  | _ => false
  end.

(** An answer after which the client polls again: the GET failed, or the
    answer is 202. *)
Definition cliWaits (x : orchcli.answer) : bool :=
  match x with
  | orchcli.GetFails _ => true
  | orchcli.Answer code _ => code =? http.StatusAccepted
  end.

(** A visit the walk of the inbox passes over: no error, and a directory or
    a file that is no job file. *)
Definition passedOver (v : transport.FilesystemTransport.visit) : bool :=
  match transport.FilesystemTransport.walkErr v with
  | Some _ => false
  | None =>
      transport.FilesystemTransport.IsDir v
      || negb (transport.FilesystemTransport.isJobFile
                 (transport.FilesystemTransport.path v))
  end.

(** * Properties *)

(** ** Sample data *)

Definition sampleJobWith (host : string) (tty : bool) (checksum : string)
    : jobs.JobDefinition :=
  {| jobs.ID := "j1"; jobs.TargetHost := host; jobs.TargetPort := 0;
     jobs.TargetUser := "u"; jobs.Command := "echo hi"; jobs.Arguments := [];
     jobs.AllowTTY := tty; jobs.Checksum := checksum; jobs.Metadata := ∅;
     jobs.Credentials := {| jobs.Username := "u"; jobs.Password := "p" |} |}.

Definition sampleChecksum : string :=
  "56a79f3b115448072387c2480044bfa2cf8f90e4f5fddd8c943b4e051b81f80b".

Definition sampleJob : jobs.JobDefinition := sampleJobWith "h" false sampleChecksum.

Definition sampleResult (st : jobs.Status) : jobs.Result :=
  {| jobs.JobID := "j1"; jobs.ResultStatus := st;
     jobs.StartedAt := {| instant := 10; location := UTC |};
     jobs.FinishedAt := {| instant := 20; location := UTC |};
     jobs.ExitCode := 0; jobs.Stdout := "hi";
     jobs.Stderr := ""; jobs.Error := ""; jobs.ResultMetadata := ∅ |}.

(** The sample job with its target host blanked: invalid, same ID. *)
Definition sampleJobNoHost : jobs.JobDefinition := sampleJobWith "" false sampleChecksum.

(** The sample job with a checksum that is not the digest of its command. *)
Definition tamperedJob : jobs.JobDefinition := sampleJobWith "h" false "tampered".

(** The sample job asking for a pseudo-terminal. *)
Definition ttyJob : jobs.JobDefinition := sampleJobWith "h" true sampleChecksum.

Definition sampleCreds : executor.SSHCredentials :=
  {| executor.Address := "h:22"; executor.Username := "u";
     executor.Password := "p"; executor.Fingerprint := "" |}.

Definition sampleExecutor : executor.SSHExecutor :=
  {| executor.AllowedCommands := ∅; executor.DialTimeout := 10 * Second |}.

(** A host that accepts everything and runs the command, or refuses the
    pseudo-terminal; the clock starts at 1000 and advances by one at each
    reading and by ten at each network call. *)
Definition sampleEnv (pty : option error) : executor.Env :=
  {| executor.clock :=
       fun n calls => 1000 + Z.of_nat n + 10 * Z.of_nat (length calls);
     executor.dial := None;
     executor.hostKeyFingerprint := "SHA256:k";
     executor.authenticate := None;
     executor.newSession := None;
     executor.requestPty := pty;
     executor.sessionRun := executor.RunDone None "hi" "" |}.

Definition ptyRefused : error := errorString "pty refused".

Definition startWorld : executor.World :=
  {| executor.ticks := 0; executor.trace := [] |}.

(** The store after the sample job was enqueued. *)
Definition sampleStore : controller.Store :=
  fst (controller.Enqueue controller.NewStore sampleJob).

Definition duplicateJobError (j : jobs.JobDefinition) : error :=
  errorString ("job " +:+ jobs.ID j +:+ " already exists").

Definition unknownJobError (r : jobs.Result) : error :=
  errorString ("job " +:+ jobs.JobID r +:+ " not found").

(** No byte of the string is a dot or a path separator. *)
Fixpoint plainName (s : string) : bool :=
  match s with
  | EmptyString => true
  | String c s' =>
      negb (filepath.IsPathSeparator c) && negb (Ascii.eqb c ".") && plainName s'
  end.

(** An inbox with a directory, a result file and a job file, as a walk
    visits them. *)
Definition sampleInbox : transport.FilesystemTransport.FS :=
  {| transport.FilesystemTransport.walk :=
       [ {| transport.FilesystemTransport.path := "inbox";
            transport.FilesystemTransport.IsDir := true;
            transport.FilesystemTransport.walkErr := None |};
         {| transport.FilesystemTransport.path := "inbox/a.job.json.result.json";
            transport.FilesystemTransport.IsDir := false;
            transport.FilesystemTransport.walkErr := None |};
         {| transport.FilesystemTransport.path := "inbox/b.job.json";
            transport.FilesystemTransport.IsDir := false;
            transport.FilesystemTransport.walkErr := None |} ];
     transport.FilesystemTransport.ReadFile := fun _ => inr "{}" |}.

Definition sampleFilesystemTransport : transport.FilesystemTransport.t :=
  {| transport.FilesystemTransport.InboxDir := "inbox";
     transport.FilesystemTransport.PollInterval := 5 * Second |}.

Definition sampleHTTPTransport : transport.HTTPTransport.t :=
  {| transport.HTTPTransport.BaseURL := "http://c:8080";
     transport.HTTPTransport.Client := None;
     transport.HTTPTransport.PollInterval := 0 |}.

(** The same transport with a poll interval of five seconds. *)
Definition pacedHTTPTransport : transport.HTTPTransport.t :=
  {| transport.HTTPTransport.BaseURL := "http://c:8080";
     transport.HTTPTransport.Client := None;
     transport.HTTPTransport.PollInterval := 5 * Second |}.

(** A decoder and an encoder to run the transports with: every body decodes
    to the sample job, every result encodes to the same text. *)
Definition sampleUnmarshal (body : string) : error + jobs.JobDefinition :=
  inr sampleJob.
Definition sampleMarshal (r : jobs.Result) : error + string := inr "{}".
Definition sampleMarshalIndent (r : jobs.Result) (prefix indent : string)
    : error + string := inr "{}".

(** The deferred calls of [Execute]. *)
Definition isClose (ev : executor.event) : bool :=
  match ev with
  | executor.EvSessionClose | executor.EvClientClose => true
  | _ => false
  end.

(** The reading of the clock in UTC, taken as the [n]-th reading after the
    network calls [calls]. *)
Definition readingUTC (env : executor.Env) (n : nat) (calls : list executor.event)
    : Time :=
  {| instant := executor.clock env n calls; location := UTC |}.

(** The result [buildResult] makes for a call of [Execute] that started in
    world [w], made the network calls [calls] before the result was built and
    ends with [err]: the reading of the clock on entry, then the next one,
    after the calls. *)
Definition built (env : executor.Env) (job : jobs.JobDefinition)
    (w : executor.World) (calls : list executor.event) (stdout stderr : string)
    (err : option error) : jobs.Result :=
  {| jobs.JobID := jobs.ID job;
     jobs.ResultStatus := executor.statusFromError err;
     jobs.StartedAt := readingUTC env (executor.ticks w) (executor.trace w);
     jobs.FinishedAt :=
       readingUTC env (S (executor.ticks w)) (executor.trace w ++ calls);
     jobs.ExitCode := executor.exitCodeOf err;
     jobs.Stdout := stdout; jobs.Stderr := stderr;
     jobs.Error := executor.errorString_ err;
     jobs.ResultMetadata := jobs.Metadata job |}.

(** The sample credentials with a fingerprint pinned for the host. *)
Definition pinnedCreds : executor.SSHCredentials :=
  {| executor.Address := "h:22"; executor.Username := "u";
     executor.Password := "p"; executor.Fingerprint := "SHA256:pinned" |}.

(** An engine configuration with a password and a pin for [h:2222]. *)
Definition sampleConfig : engine.ExecutionConfig :=
  {| engine.AllowedCommands := [" "; "uptime"; ""];
     engine.DialTimeoutSeconds := 0;
     engine.JobTimeoutSeconds := 30;
     engine.PrivateKeyPath := "/etc/key";
     engine.Password := "p";
     engine.HostKeyFingerprints := {["h:2222" := "SHA256:pinned"]} |}.

(** The sample job sent to port 2222. *)
Definition sampleJobPort2222 : jobs.JobDefinition :=
  {| jobs.ID := "j1"; jobs.TargetHost := "h"; jobs.TargetPort := 2222;
     jobs.TargetUser := "u"; jobs.Command := "echo hi"; jobs.Arguments := [];
     jobs.AllowTTY := false; jobs.Checksum := sampleChecksum; jobs.Metadata := ∅;
     jobs.Credentials := {| jobs.Username := "u"; jobs.Password := "p" |} |}.

(** A decoder that refuses every body. *)
Definition refusingUnmarshal (body : string) : error + jobs.JobDefinition :=
  inl (errorString "unexpected end of JSON input").

(** ** The digest against the published test vectors *)

Example sha256_constants :
  nth 0 sha256.K 0 = 0x428a2f98 /\ nth 63 sha256.K 0 = 0xc67178f2
  /\ length sha256.K = 64%nat
  /\ nth 0 sha256.H0 0 = 0x6a09e667 /\ nth 7 sha256.H0 0 = 0x5be0cd19
  /\ length sha256.H0 = 8%nat.
Proof. vm_compute. repeat split; reflexivity. Qed.

Example sha256_empty :
  hex.EncodeToString (sha256.Sum256 "") =
  "e3b0c44298fc1c149afbf4c8996fb92427ae41e4649b934ca495991b7852b855".
Proof. vm_compute. reflexivity. Qed.

Example sha256_abc :
  hex.EncodeToString (sha256.Sum256 "abc") =
  "ba7816bf8f01cfea414140de5dae2223b00361a396177a9cb410ff61f20015ad".
Proof. vm_compute. reflexivity. Qed.

Example sha256_two_blocks :
  hex.EncodeToString
    (sha256.Sum256 "aaaaaaaaaaaaaaaaaaaaaaaaaaaaaaaaaaaaaaaaaaaaaaaaaaaaaaaa") =
  "b35439a4ac6f0948b6d6f9e3c6af0f5f590ce20f1bde7090ef7970686ec6738a".
Proof. vm_compute. reflexivity. Qed.

Example sampleJob_checksum :
  jobs.Checksum sampleJob = ensureChecksum (jobs.Command sampleJob).
Proof. vm_compute. reflexivity. Qed.

Example sampleJob_valid : jobs.Validate sampleJob = None.
Proof. vm_compute. reflexivity. Qed.

(** ** The job store *)

Section StoreProperties.
Import jobs controller.

Implicit Types (s : Store) (j : JobDefinition) (r : Result).

Lemma statusOf_insert q (m : gmap string jobRecord) jobID (rec : jobRecord) jobID' :
  statusOf {| queue := q; records := <[jobID := rec]> m |} jobID' =
  if decide (jobID = jobID') then Some (status rec)
  else status <$> m !! jobID'.
Proof.
  unfold statusOf; simpl. rewrite lookup_insert.
  destruct (decide (jobID = jobID')); reflexivity.
Qed.

(** C2. For a valid job whose ID is new to a store with an empty queue,
    [Enqueue] succeeds, the next [Next] returns that job and leaves its
    record running, and a second [Next] returns no job. *)
Theorem enqueue_next_returns_job_once s j :
  Validate j = None ->
  records s !! ID j = None ->
  queue s = [] ->
  exists s1 s2,
    Enqueue s j = (s1, None)
    /\ Next s1 = (s2, Returned (Some j))
    /\ statusOf s2 (ID j) = Some StatusRunning
    /\ Next s2 = (s2, Returned None).
Proof.
  intros Hvalid Hfresh Hempty.
  unfold Enqueue. rewrite Hvalid, Hfresh, Hempty. simpl.
  eexists. eexists. split; [reflexivity|].
  unfold Next; simpl. rewrite lookup_insert_eq. simpl.
  split; [reflexivity|]. split; [|reflexivity].
  rewrite statusOf_insert. rewrite decide_True by reflexivity. reflexivity.
Qed.

Lemma enqueue_next_returns_job_once_witness :
  exists s1 s2,
    Enqueue NewStore sampleJob = (s1, None)
    /\ Next s1 = (s2, Returned (Some sampleJob))
    /\ statusOf s2 (ID sampleJob) = Some StatusRunning
    /\ Next s2 = (s2, Returned None).
Proof.
  apply (enqueue_next_returns_job_once NewStore sampleJob).
  - vm_compute. reflexivity.
  - reflexivity.
  - reflexivity.
Defined.

(** C5, as stated, fails: a job whose ID is present but which does not pass
    validation is refused with the validation error, not with the
    duplicate-job error, validation coming first. *)
Lemma enqueue_present_id_validation_error_first :
  is_Some (records sampleStore !! ID sampleJobNoHost)
  /\ snd (Enqueue sampleStore sampleJobNoHost)
     = Some (errorString "job j1 missing target_host")
  /\ snd (Enqueue sampleStore sampleJobNoHost)
     <> Some (duplicateJobError sampleJobNoHost).
Proof.
  split; [|split].
  - exists {| job := sampleJob; status := StatusPending; result := None |}.
    vm_compute. reflexivity.
  - vm_compute. reflexivity.
  - vm_compute. discriminate.
Qed.

(** C5, amended. A valid job whose ID is present is refused with the
    duplicate-job error; an invalid job is refused with its validation
    error, whether its ID is present or not; and every refused [Enqueue]
    returns the store it was given, so queue and records are as before. *)
Theorem enqueue_refused_leaves_store s j :
  (Validate j = None -> is_Some (records s !! ID j) ->
   Enqueue s j = (s, Some (duplicateJobError j)))
  /\ (forall err, Validate j = Some err -> Enqueue s j = (s, Some err))
  /\ (forall err, snd (Enqueue s j) = Some err ->
      fst (Enqueue s j) = s
      /\ length (queue (fst (Enqueue s j))) = length (queue s)
      /\ forall jobID, records (fst (Enqueue s j)) !! jobID = records s !! jobID).
Proof.
  split; [|split].
  - intros Hvalid [rec Hrec]. unfold Enqueue. rewrite Hvalid, Hrec. reflexivity.
  - intros err Hinvalid. unfold Enqueue. rewrite Hinvalid. reflexivity.
  - intros err. unfold Enqueue.
    destruct (Validate j) as [verr|]; simpl.
    + intros _. auto.
    + destruct (records s !! ID j) as [rec|]; simpl.
      * intros _. auto.
      * discriminate.
Qed.

Lemma enqueue_refused_leaves_store_witness :
  Enqueue sampleStore sampleJob = (sampleStore, Some (duplicateJobError sampleJob))
  /\ Enqueue sampleStore sampleJobNoHost
     = (sampleStore, Some (errorString "job j1 missing target_host"))
  /\ fst (Enqueue sampleStore sampleJob) = sampleStore.
Proof.
  destruct (enqueue_refused_leaves_store sampleStore sampleJob) as (Hdup & _ & Hsame).
  destruct (enqueue_refused_leaves_store sampleStore sampleJobNoHost) as (_ & Hinv & _).
  split; [|split].
  - apply Hdup.
    + vm_compute. reflexivity.
    + exists {| job := sampleJob; status := StatusPending; result := None |}.
      vm_compute. reflexivity.
  - apply Hinv. vm_compute. reflexivity.
  - apply (Hsame (duplicateJobError sampleJob)). vm_compute. reflexivity.
Defined.

(** C6. [Complete] fails exactly when the result's job has no record, with
    the unknown-job error and the store as it was, so that [Lookup] still
    reports the job as not found. When the record exists, [Complete] sets its
    status to the result's status and its result to the result given, changes
    nothing else, and a later [Complete] for the same job replaces both. *)
Theorem complete_unknown_or_overwrite s r :
  (snd (Complete s r) <> None <-> records s !! JobID r = None)
  /\ (records s !! JobID r = None ->
      Complete s r = (s, Some (unknownJobError r))
      /\ Lookup (fst (Complete s r)) (JobID r) = ("", None, false))
  /\ (forall rec, records s !! JobID r = Some rec ->
      snd (Complete s r) = None
      /\ records (fst (Complete s r)) !! JobID r
         = Some {| job := job rec; status := ResultStatus r; result := Some r |}
      /\ queue (fst (Complete s r)) = queue s
      /\ (forall jobID, jobID <> JobID r ->
          records (fst (Complete s r)) !! jobID = records s !! jobID)
      /\ Lookup (fst (Complete s r)) (JobID r) = (ResultStatus r, Some r, true)
      /\ forall r2, JobID r2 = JobID r ->
           snd (Complete (fst (Complete s r)) r2) = None
           /\ Lookup (fst (Complete (fst (Complete s r)) r2)) (JobID r)
              = (ResultStatus r2, Some r2, true)).
Proof.
  split; [|split].
  - unfold Complete. destruct (records s !! JobID r) as [rec|]; simpl.
    + split; [intros H; contradiction H; reflexivity | discriminate].
    + split; [reflexivity | discriminate].
  - intros Hnone. unfold Complete, Lookup. rewrite Hnone. simpl.
    rewrite Hnone. split; reflexivity.
  - intros rec Hrec. unfold Complete at 1 2 3 4 5. rewrite Hrec. simpl.
    split; [reflexivity|]. split; [apply lookup_insert_eq|].
    split; [reflexivity|]. split.
    { intros jobID Hne. apply lookup_insert_ne. congruence. }
    split.
    { unfold Lookup. simpl. rewrite lookup_insert_eq. reflexivity. }
    intros r2 Hsame. unfold Complete. rewrite Hrec. simpl.
    rewrite Hsame, lookup_insert_eq. simpl. split; [reflexivity|].
    unfold Lookup. simpl. rewrite lookup_insert_eq. reflexivity.
Qed.

Lemma complete_unknown_or_overwrite_witness :
  (Complete NewStore (sampleResult StatusSucceeded)
   = (NewStore, Some (errorString "job j1 not found"))
   /\ Lookup (fst (Complete NewStore (sampleResult StatusSucceeded))) "j1"
      = ("", None, false))
  /\ Lookup (fst (Complete sampleStore (sampleResult StatusSucceeded))) "j1"
     = (StatusSucceeded, Some (sampleResult StatusSucceeded), true).
Proof.
  split.
  - apply (complete_unknown_or_overwrite NewStore (sampleResult StatusSucceeded)).
    reflexivity.
  - destruct (complete_unknown_or_overwrite sampleStore (sampleResult StatusSucceeded))
      as (_ & _ & Hsome).
    apply (Hsome {| job := sampleJob; status := StatusPending; result := None |}).
    vm_compute. reflexivity.
Defined.

(** *** Statuses along a run *)

Lemma forward_refl (st : Status) : forward st st = true.
Proof. unfold forward. rewrite String.eqb_refl. reflexivity. Qed.

Lemma forward_to_terminal (old new : Status) :
  old = StatusRunning \/ terminal old = true ->
  terminal new = true ->
  forward old new = true.
Proof.
  intros [-> | Hold] Hnew; unfold forward; rewrite Hnew.
  - rewrite (String.eqb_refl StatusRunning). simpl.
    rewrite !orb_true_r. reflexivity.
  - rewrite Hold. rewrite !orb_true_r. reflexivity.
Qed.

Lemma stepForward_same s o : step s o = s -> stepForward s o.
Proof.
  intros Heq jobID. rewrite Heq.
  destruct (statusOf s jobID); [apply forward_refl | exact I].
Qed.

Lemma wellFormed_NewStore : wellFormed NewStore.
Proof.
  split; [apply NoDup_nil_2|]. split.
  - intros jobID Hin. inversion Hin.
  - intros jobID st Hst. unfold statusOf in Hst. simpl in Hst.
    rewrite lookup_empty in Hst. discriminate.
Qed.

Lemma enqueue_keeps_order s j :
  wellFormed s -> wellFormed (step s (OpEnqueue j)) /\ stepForward s (OpEnqueue j).
Proof.
  intros Hwf.
  destruct (Validate j) as [verr|] eqn:Hvalid;
    [| destruct (records s !! ID j) as [rec|] eqn:Hrec].
  - assert (Hsame : step s (OpEnqueue j) = s)
      by (simpl; unfold Enqueue; rewrite Hvalid; reflexivity).
    split; [rewrite Hsame; exact Hwf | apply stepForward_same, Hsame].
  - assert (Hsame : step s (OpEnqueue j) = s)
      by (simpl; unfold Enqueue; rewrite Hvalid, Hrec; reflexivity).
    split; [rewrite Hsame; exact Hwf | apply stepForward_same, Hsame].
  - destruct Hwf as (Hnodup & Hqueued & Hfour).
    assert (Hnone : statusOf s (ID j) = None)
      by (unfold statusOf; rewrite Hrec; reflexivity).
    simpl. unfold Enqueue. rewrite Hvalid, Hrec. simpl.
    split; [split; [|split]|].
    + apply NoDup_app. split; [exact Hnodup|]. split; [|apply NoDup_singleton].
      intros jobID Hin Hlast. apply list_elem_of_singleton in Hlast. subst jobID.
      apply Hqueued in Hin. congruence.
    + intros jobID Hin. simpl in Hin. rewrite statusOf_insert.
      destruct (decide (ID j = jobID)) as [Heq|Hne]; [reflexivity|].
      change (status <$> records s !! jobID) with (statusOf s jobID).
      apply elem_of_app in Hin. destruct Hin as [Hin|Hin].
      * apply Hqueued, Hin.
      * apply list_elem_of_singleton in Hin. congruence.
    + intros jobID st. rewrite statusOf_insert.
      destruct (decide (ID j = jobID)) as [Heq|Hne].
      * intros [= <-]. left. reflexivity.
      * apply Hfour.
    + intros jobID. cbn [step]. unfold Enqueue. rewrite Hvalid, Hrec. cbn [fst].
      rewrite statusOf_insert.
      destruct (decide (ID j = jobID)) as [Heq|Hne].
      * subst jobID. rewrite Hnone. reflexivity.
      * change (status <$> records s !! jobID) with (statusOf s jobID).
        destruct (statusOf s jobID); [apply forward_refl | exact I].
Qed.

Lemma next_keeps_order s :
  wellFormed s -> wellFormed (step s OpNext) /\ stepForward s OpNext.
Proof.
  intros Hwf.
  destruct (queue s) as [|jobID0 rest] eqn:Hq.
  - assert (Hsame : step s OpNext = s)
      by (simpl; unfold Next; rewrite Hq; reflexivity).
    split; [rewrite Hsame; exact Hwf | apply stepForward_same, Hsame].
  - destruct Hwf as (Hnodup & Hqueued & Hfour). rewrite Hq in Hnodup, Hqueued.
    apply NoDup_cons in Hnodup. destruct Hnodup as [Hnotin Hnodup].
    assert (Hhead : statusOf s jobID0 = Some StatusPending)
      by (apply Hqueued; left).
    destruct (records s !! jobID0) as [rec|] eqn:Hrec;
      [| unfold statusOf in Hhead; rewrite Hrec in Hhead; discriminate].
    simpl. unfold Next. rewrite Hq, Hrec. simpl.
    split; [split; [|split]|].
    + exact Hnodup.
    + intros jobID Hin. simpl in Hin. rewrite statusOf_insert.
      destruct (decide (jobID0 = jobID)) as [Heq|Hne]; [congruence|].
      change (status <$> records s !! jobID) with (statusOf s jobID).
      apply Hqueued. right. exact Hin.
    + intros jobID st. rewrite statusOf_insert.
      destruct (decide (jobID0 = jobID)) as [Heq|Hne].
      * intros [= <-]. right. left. reflexivity.
      * apply Hfour.
    + intros jobID. cbn [step]. unfold Next. rewrite Hq, Hrec. cbn [fst].
      rewrite statusOf_insert.
      destruct (decide (jobID0 = jobID)) as [Heq|Hne].
      * subst jobID. rewrite Hhead. reflexivity.
      * change (status <$> records s !! jobID) with (statusOf s jobID).
        destruct (statusOf s jobID); [apply forward_refl | exact I].
Qed.

Lemma complete_keeps_order s r :
  wellFormed s -> completesDequeued s r = true ->
  wellFormed (step s (OpComplete r)) /\ stepForward s (OpComplete r).
Proof.
  intros Hwf Huse.
  destruct (records s !! JobID r) as [rec|] eqn:Hrec.
  - destruct Hwf as (Hnodup & Hqueued & Hfour).
    assert (Hold : statusOf s (JobID r) = Some (status rec))
      by (unfold statusOf; rewrite Hrec; reflexivity).
    unfold completesDequeued in Huse. rewrite Hold in Huse.
    apply andb_true_iff in Huse. destruct Huse as [Hterm Hnotpending].
    apply negb_true_iff, String.eqb_neq in Hnotpending.
    simpl. unfold Complete. rewrite Hrec. simpl.
    split; [split; [|split]|].
    + exact Hnodup.
    + intros jobID Hin. simpl in Hin. rewrite statusOf_insert.
      destruct (decide (JobID r = jobID)) as [Heq|Hne].
      * subst jobID. apply Hqueued in Hin. congruence.
      * change (status <$> records s !! jobID) with (statusOf s jobID).
        apply Hqueued, Hin.
    + intros jobID st. rewrite statusOf_insert.
      destruct (decide (JobID r = jobID)) as [Heq|Hne].
      * intros [= <-]. right. right. exact Hterm.
      * apply Hfour.
    + intros jobID. cbn [step]. unfold Complete. rewrite Hrec. cbn [fst].
      rewrite statusOf_insert.
      destruct (decide (JobID r = jobID)) as [Heq|Hne].
      * subst jobID. rewrite Hold. simpl.
        apply forward_to_terminal; [|exact Hterm].
        destruct (Hfour _ _ Hold) as [Hp|[Hr|Ht]]; [contradiction|left|right]; assumption.
      * change (status <$> records s !! jobID) with (statusOf s jobID).
        destruct (statusOf s jobID); [apply forward_refl | exact I].
  - assert (Hsame : step s (OpComplete r) = s)
      by (simpl; unfold Complete; rewrite Hrec; reflexivity).
    split; [rewrite Hsame; exact Hwf | apply stepForward_same, Hsame].
Qed.

Lemma engineUse_movesForward (ops : list op) : forall s,
  wellFormed s -> engineUse s ops = true -> movesForward s ops.
Proof.
  induction ops as [|o rest IH]; intros s Hwf Huse; [exact I|].
  simpl in Huse. apply andb_true_iff in Huse. destruct Huse as [Ho Hrest].
  assert (Hstep : wellFormed (step s o) /\ stepForward s o).
  { destruct o as [j| |r|jobID].
    - apply enqueue_keeps_order, Hwf.
    - apply next_keeps_order, Hwf.
    - apply complete_keeps_order; assumption.
    - split; [exact Hwf | apply stepForward_same; reflexivity]. }
  destruct Hstep as [Hwf' Hfwd].
  split; [exact Hfwd | apply IH; assumption].
Qed.

(** On every store reached from the empty one, [Next] returns: the record
    of the head of the queue is there. *)
Lemma step_keeps_queued s o : queuedHaveRecords s -> queuedHaveRecords (step s o).
Proof.
  intros Hq. destruct o as [j| |r|jobID]; simpl.
  - unfold Enqueue. destruct (Validate j); [exact Hq|].
    destruct (records s !! ID j) eqn:Hrec; [exact Hq|].
    intros jobID Hin. simpl in *. rewrite lookup_insert.
    destruct (decide (ID j = jobID)); [eexists; reflexivity|].
    apply elem_of_app in Hin. destruct Hin as [Hin|Hin]; [apply Hq, Hin|].
    apply list_elem_of_singleton in Hin. congruence.
  - unfold Next. destruct (queue s) as [|jobID0 rest] eqn:Hqueue; [exact Hq|].
    assert (Hrest : forall jobID, jobID ∈ rest -> is_Some (records s !! jobID))
      by (intros jobID Hin; apply Hq; rewrite Hqueue; right; exact Hin).
    destruct (records s !! jobID0); [|exact Hrest].
    intros jobID Hin. simpl in *. rewrite lookup_insert.
    destruct (decide (jobID0 = jobID)); [eexists; reflexivity | apply Hrest, Hin].
  - unfold Complete. destruct (records s !! JobID r); [|exact Hq].
    intros jobID Hin. simpl in *. rewrite lookup_insert.
    destruct (decide (JobID r = jobID)); [eexists; reflexivity | apply Hq, Hin].
  - exact Hq.
Qed.

Lemma run_keeps_queued (ops : list op) : forall s,
  queuedHaveRecords s -> queuedHaveRecords (run s ops).
Proof.
  induction ops as [|o rest IH]; intros s Hq; [exact Hq|].
  apply IH, step_keeps_queued, Hq.
Qed.

Lemma next_never_panics (ops : list op) :
  snd (Next (run NewStore ops)) <> Panicked.
Proof.
  assert (Hq : queuedHaveRecords (run NewStore ops)).
  { apply run_keeps_queued. intros jobID Hin. inversion Hin. }
  unfold Next. destruct (queue (run NewStore ops)) as [|jobID0 rest] eqn:Hqueue;
    [discriminate|].
  destruct (Hq jobID0) as [rec Hrec]; [rewrite Hqueue; left|].
  rewrite Hrec. discriminate.
Qed.

(** *** What the order gives along a run *)

Lemma forward_to_pending (old : Status) :
  forward old StatusPending = true -> old = StatusPending.
Proof.
  unfold forward. intros Hf.
  apply orb_true_iff in Hf. destruct Hf as [Hf|Hf].
  - apply orb_true_iff in Hf. destruct Hf as [Hf|Hf].
    + apply orb_true_iff in Hf. destruct Hf as [Hf|Hf].
      * apply String.eqb_eq, Hf.
      * apply andb_true_iff in Hf. destruct Hf as [Hf _].
        apply String.eqb_eq, Hf.
    + apply andb_true_iff in Hf. destruct Hf as [_ Hf].
      vm_compute in Hf. discriminate.
  - apply andb_true_iff in Hf. destruct Hf as [_ Hf].
    vm_compute in Hf. discriminate.
Qed.

Lemma forward_from_pending (new : Status) :
  forward StatusPending new = true -> terminal new = true -> False.
Proof.
  unfold forward. intros Hf Ht.
  apply orb_true_iff in Hf. destruct Hf as [Hf|Hf].
  - apply orb_true_iff in Hf. destruct Hf as [Hf|Hf].
    + apply orb_true_iff in Hf. destruct Hf as [Hf|Hf].
      * apply String.eqb_eq in Hf. subst new. vm_compute in Ht. discriminate.
      * apply andb_true_iff in Hf. destruct Hf as [_ Hf].
        apply String.eqb_eq in Hf. subst new. vm_compute in Ht. discriminate.
    + apply andb_true_iff in Hf. destruct Hf as [Hf _].
      vm_compute in Hf. discriminate.
  - apply andb_true_iff in Hf. destruct Hf as [Hf _].
    vm_compute in Hf. discriminate.
Qed.

Lemma run_snoc s pre o : run s (pre ++ [o]) = step (run s pre) o.
Proof. unfold run. rewrite fold_left_app. reflexivity. Qed.

Lemma step_keeps_order s o :
  wellFormed s -> engineUse s [o] = true ->
  wellFormed (step s o) /\ stepForward s o.
Proof.
  intros Hwf Huse. simpl in Huse. rewrite andb_true_r in Huse.
  destruct o as [j| |r|jobID].
  - apply enqueue_keeps_order, Hwf.
  - apply next_keeps_order, Hwf.
  - apply complete_keeps_order; assumption.
  - split; [exact Hwf | apply stepForward_same; reflexivity].
Qed.

Lemma engineUse_app (pre : list op) : forall s post,
  engineUse s (pre ++ post) = true ->
  engineUse s pre = true /\ engineUse (run s pre) post = true.
Proof.
  induction pre as [|o pre IH]; intros s post Huse; [split; [reflexivity|exact Huse]|].
  simpl in Huse. apply andb_true_iff in Huse. destruct Huse as [Ho Hrest].
  destruct (IH _ _ Hrest) as [Hpre Hpost].
  split; [|exact Hpost]. simpl. rewrite Ho, Hpre. reflexivity.
Qed.

Lemma engineUse_wellFormed (ops : list op) : forall s,
  wellFormed s -> engineUse s ops = true -> wellFormed (run s ops).
Proof.
  induction ops as [|o rest IH]; intros s Hwf Huse; [exact Hwf|].
  simpl in Huse. apply andb_true_iff in Huse. destruct Huse as [Ho Hrest].
  apply IH; [|exact Hrest].
  apply step_keeps_order; [exact Hwf|]. simpl. rewrite Ho. reflexivity.
Qed.

(** The step made after a prefix of a run of that use keeps the order. *)
Lemma engineUse_step_forward pre o post :
  engineUse NewStore (pre ++ o :: post) = true ->
  wellFormed (run NewStore pre) /\ stepForward (run NewStore pre) o.
Proof.
  intros Huse. destruct (engineUse_app pre _ _ Huse) as [Hpre Hpost].
  assert (Hwf : wellFormed (run NewStore pre))
    by (apply engineUse_wellFormed; [apply wellFormed_NewStore | exact Hpre]).
  split; [exact Hwf|].
  apply step_keeps_order; [exact Hwf|].
  simpl in Hpost. apply andb_true_iff in Hpost. destruct Hpost as [Ho _].
  simpl. rewrite Ho. reflexivity.
Qed.

(** A record with a terminal status was running at an earlier point of the
    run. *)
Lemma terminal_was_running (pre : list op) :
  engineUse NewStore pre = true ->
  forall jobID st,
    statusOf (run NewStore pre) jobID = Some st -> terminal st = true ->
    exists pre0 post0,
      pre = pre0 ++ post0
      /\ statusOf (run NewStore pre0) jobID = Some StatusRunning.
Proof.
  induction pre as [|o pre IH] using rev_ind; intros Huse jobID st Hst Hterm.
  { unfold statusOf in Hst. simpl in Hst. rewrite lookup_empty in Hst.
    discriminate. }
  destruct (engineUse_step_forward pre o [] Huse) as [Hwf Hfwd].
  destruct (engineUse_app pre _ _ Huse) as [Hpre _].
  rewrite run_snoc in Hst. specialize (Hfwd jobID). rewrite Hst in Hfwd.
  destruct (statusOf (run NewStore pre) jobID) as [old|] eqn:Hold.
  - destruct Hwf as (_ & _ & Hfour).
    destruct (Hfour _ _ Hold) as [Hp|[Hr|Ht]].
    + subst old. destruct (forward_from_pending st Hfwd Hterm).
    + subst old. exists pre, [o]. split; [reflexivity | exact Hold].
    + destruct (IH Hpre jobID old Hold Ht) as (pre0 & post0 & Heq & Hrun).
      exists pre0, (post0 ++ [o]). rewrite Heq, <- app_assoc.
      split; [reflexivity | exact Hrun].
  - subst st. discriminate.
Qed.

(** C3, as stated, fails: [Complete] writes the status it is given over any
    status. A job still pending becomes succeeded without having been
    running, and a running job is set back to pending by a result that
    carries that status. *)
Lemma complete_skips_running_and_goes_back :
  ~ movesForward NewStore
      [OpEnqueue sampleJob; OpComplete (sampleResult StatusSucceeded)]
  /\ ~ movesForward NewStore
      [OpEnqueue sampleJob; OpNext; OpComplete (sampleResult StatusPending)]
  /\ statusOf (run NewStore
                 [OpEnqueue sampleJob; OpComplete (sampleResult StatusSucceeded)])
              "j1" = Some StatusSucceeded
  /\ statusOf (run NewStore
                 [OpEnqueue sampleJob; OpNext;
                  OpComplete (sampleResult StatusPending)])
              "j1" = Some StatusPending.
Proof.
  split; [|split; [|split]].
  - intros (_ & Hcomplete & _). specialize (Hcomplete "j1").
    vm_compute in Hcomplete. discriminate.
  - intros (_ & _ & Hcomplete & _). specialize (Hcomplete "j1").
    vm_compute in Hcomplete. discriminate.
  - vm_compute. reflexivity.
  - vm_compute. reflexivity.
Qed.

(** C3, amended. What each operation writes: [Enqueue], when it accepts
    a job, creates its record as pending; [Next] returns the job of the
    record it dequeues and sets that record to running; [Lookup] changes
    nothing; [Complete] writes the result's status over the status of the
    record of the result's job, whatever that status is; and each leaves the
    status of every other record as it is.  In every run from the empty store
    in which each [Complete] carries a terminal status for a job that is no
    longer pending: each operation keeps a status, moves it from pending to
    running or from running to a terminal status, or writes a terminal status
    over a terminal one, and a new record starts as pending; no operation
    sets a status back to pending; and a record that has a terminal status
    was running at an earlier point of the run. *)
Theorem statuses_move_forward_under_engine_use :
  (forall s j, snd (Enqueue s j) = None ->
     statusOf s (ID j) = None
     /\ statusOf (fst (Enqueue s j)) (ID j) = Some StatusPending
     /\ forall other, other <> ID j ->
          statusOf (fst (Enqueue s j)) other = statusOf s other)
  /\ (forall s jobID rest rec,
        queue s = jobID :: rest -> records s !! jobID = Some rec ->
        snd (Next s) = Returned (Some (job rec))
        /\ statusOf (fst (Next s)) jobID = Some StatusRunning
        /\ forall other, other <> jobID ->
             statusOf (fst (Next s)) other = statusOf s other)
  /\ (forall s jobID, step s (OpLookup jobID) = s)
  /\ (forall s r old, statusOf s (JobID r) = Some old ->
        snd (Complete s r) = None
        /\ statusOf (fst (Complete s r)) (JobID r) = Some (ResultStatus r)
        /\ forall other, other <> JobID r ->
             statusOf (fst (Complete s r)) other = statusOf s other)
  /\ (forall ops, engineUse NewStore ops = true ->
        movesForward NewStore ops
        /\ (forall pre o post jobID, ops = pre ++ o :: post ->
              statusOf (run NewStore (pre ++ [o])) jobID = Some StatusPending ->
              statusOf (run NewStore pre) jobID = None
              \/ statusOf (run NewStore pre) jobID = Some StatusPending)
        /\ (forall pre post jobID st, ops = pre ++ post ->
              statusOf (run NewStore pre) jobID = Some st ->
              terminal st = true ->
              exists pre0 post0,
                pre = pre0 ++ post0
                /\ statusOf (run NewStore pre0) jobID = Some StatusRunning)).
Proof.
  split; [|split; [|split; [|split]]].
  - intros s j Hok. unfold Enqueue in *.
    destruct (Validate j); [discriminate|].
    destruct (records s !! ID j) eqn:Hrec; [discriminate|]. simpl.
    split; [unfold statusOf; rewrite Hrec; reflexivity|].
    split; [rewrite statusOf_insert, decide_True by reflexivity; reflexivity|].
    intros other Hne. rewrite statusOf_insert, decide_False by congruence.
    reflexivity.
  - intros s jobID rest rec Hq Hrec. unfold Next. rewrite Hq, Hrec. simpl.
    split; [reflexivity|].
    split; [rewrite statusOf_insert, decide_True by reflexivity; reflexivity|].
    intros other Hne. rewrite statusOf_insert, decide_False by congruence.
    reflexivity.
  - reflexivity.
  - intros s r old Hold. unfold Complete.
    destruct (records s !! JobID r) as [rec|] eqn:Hrec;
      [|unfold statusOf in Hold; rewrite Hrec in Hold; discriminate]. simpl.
    split; [reflexivity|].
    split; [rewrite statusOf_insert, decide_True by reflexivity; reflexivity|].
    intros other Hne. rewrite statusOf_insert, decide_False by congruence.
    reflexivity.
  - intros ops Huse.
    split; [apply engineUse_movesForward; [apply wellFormed_NewStore | exact Huse]|].
    split.
    + intros pre o post jobID -> Hnew.
      destruct (engineUse_step_forward pre o post Huse) as [_ Hfwd].
      rewrite run_snoc in Hnew. specialize (Hfwd jobID). rewrite Hnew in Hfwd.
      destruct (statusOf (run NewStore pre) jobID) as [old|]; [|left; reflexivity].
      right. f_equal. apply forward_to_pending, Hfwd.
    + intros pre post jobID st -> Hst Hterm.
      destruct (engineUse_app pre _ _ Huse) as [Hpre _].
      exact (terminal_was_running pre Hpre jobID st Hst Hterm).
Qed.

Lemma statuses_move_forward_under_engine_use_witness :
  movesForward NewStore
    [OpEnqueue sampleJob; OpLookup "j1"; OpNext;
     OpComplete (sampleResult StatusSucceeded);
     OpComplete (sampleResult StatusFailed); OpLookup "j1"]
  /\ (exists pre0 post0,
        [OpEnqueue sampleJob; OpLookup "j1"; OpNext;
         OpComplete (sampleResult StatusSucceeded)] = pre0 ++ post0
        /\ statusOf (run NewStore pre0) "j1" = Some StatusRunning)
  /\ statusOf (fst (Complete sampleStore (sampleResult StatusFailed))) "j1"
     = Some StatusFailed.
Proof.
  destruct statuses_move_forward_under_engine_use
    as (_ & _ & _ & Hcomplete & Hruns).
  destruct (Hruns [OpEnqueue sampleJob; OpLookup "j1"; OpNext;
                   OpComplete (sampleResult StatusSucceeded);
                   OpComplete (sampleResult StatusFailed); OpLookup "j1"])
    as (Hforward & _ & Hrunning); [vm_compute; reflexivity|].
  split; [exact Hforward|]. split.
  - apply (Hrunning [OpEnqueue sampleJob; OpLookup "j1"; OpNext;
                     OpComplete (sampleResult StatusSucceeded)]
                    [OpComplete (sampleResult StatusFailed); OpLookup "j1"]
                    "j1" StatusSucceeded);
      [reflexivity | vm_compute; reflexivity | reflexivity].
  - apply (Hcomplete sampleStore (sampleResult StatusFailed) StatusPending).
    vm_compute. reflexivity.
Defined.

End StoreProperties.

(** ** The executor *)

Section ExecutorProperties.
Import jobs executor.

Implicit Types (env : Env) (e : SSHExecutor) (job : JobDefinition)
  (creds : SSHCredentials) (w : World).

Lemma validateJob_checksum_mismatch e job :
  Checksum job <> hex.EncodeToString (sha256.Sum256 (Command job)) ->
  exists err, validateJob e job = Some err.
Proof.
  intros Hsum. unfold validateJob.
  destruct (Validate job) as [verr|]; [eexists; reflexivity|].
  destruct ((0 <? size (AllowedCommands e))%nat
            && negb (bool_decide (Command job ∈ AllowedCommands e)));
    [eexists; reflexivity|].
  assert (Hneq : String.eqb (hex.EncodeToString (sha256.Sum256 (Command job)))
                            (Checksum job) = false)
    by (apply String.eqb_neq; congruence).
  rewrite Hneq. eexists; reflexivity.
Qed.

Lemma execute_validation_failure env e job creds w err :
  validateJob e job = Some err ->
  Execute env e job creds w =
  ({| JobID := ID job; ResultStatus := StatusFailed;
      StartedAt := readingUTC env (ticks w) (trace w);
      FinishedAt := readingUTC env (S (ticks w)) (trace w);
      ExitCode := exitCodeOf (Some err); Stdout := ""; Stderr := "";
      Error := errorText err; ResultMetadata := Metadata job |},
   Some err,
   {| ticks := S (S (ticks w)); trace := trace w |}).
Proof.
  intros Hv. unfold Execute, bind, nowUTC, now. rewrite Hv. reflexivity.
Qed.

Example execute_sample_job :
  Execute (sampleEnv None) sampleExecutor sampleJob sampleCreds startWorld =
  ({| JobID := "j1"; ResultStatus := StatusSucceeded;
      StartedAt := {| instant := 1000; location := UTC |};
      FinishedAt := {| instant := 1041; location := UTC |};
      ExitCode := 0; Stdout := "hi"; Stderr := "";
      Error := ""; ResultMetadata := ∅ |},
   None,
   {| ticks := 2;
      trace := [EvDial "h:22"; EvHandshake "h:22" "u"; EvNewSession;
                EvRun "echo hi"; EvSessionClose; EvClientClose] |}).
Proof. vm_compute. reflexivity. Qed.

(** What [newClient] does to the world and when it gives a client. *)
Lemma newClient_events env e creds w :
  exists evs,
    snd (newClient env e creds w) = {| ticks := ticks w; trace := trace w ++ evs |}
    /\ Forall (fun ev => ev = EvDial (Address creds)
                         \/ ev = EvHandshake (Address creds) (Username creds)) evs
    /\ match fst (newClient env e creds w) with
       | None =>
           dial env = None
           /\ makeHostKeyCallback (Fingerprint creds) (Address creds)
                (hostKeyFingerprint env) = None
           /\ authenticate env = None
       | Some err => asExitError err = None
       end
    /\ (Address creds <> "" -> Username creds <> "" -> Password creds <> "" ->
        EvDial (Address creds) ∈ evs).
Proof.
  unfold newClient, bind, emit, ret.
  destruct (String.eqb_spec (Address creds) "") as [Ha|Ha]; simpl.
  { exists []. rewrite app_nil_r. destruct w; simpl. repeat split; auto.
    intros H; contradiction. }
  destruct (String.eqb_spec (Username creds) "") as [Hu|Hu]; simpl.
  { exists []. rewrite app_nil_r. destruct w; simpl. repeat split; auto.
    intros _ H; contradiction. }
  destruct (String.eqb_spec (Password creds) "") as [Hp|Hp]; simpl.
  { exists []. rewrite app_nil_r. destruct w; simpl. repeat split; auto.
    intros _ _ H; contradiction. }
  destruct (dial env) as [derr|]; simpl.
  { exists [EvDial (Address creds)]. repeat split; auto.
    intros _ _ _. left. }
  destruct (makeHostKeyCallback (Fingerprint creds) (Address creds)
              (hostKeyFingerprint env)) as [kerr|]; simpl.
  { exists [EvDial (Address creds); EvHandshake (Address creds) (Username creds)].
    rewrite <- app_assoc. repeat split; auto. intros _ _ _. left. }
  destruct (authenticate env) as [aerr|]; simpl;
    exists [EvDial (Address creds); EvHandshake (Address creds) (Username creds)];
    rewrite <- app_assoc; repeat split; auto; intros _ _ _; left.
Qed.

Lemma newClient_calls_are_no_close (creds : SSHCredentials) evs :
  Forall (fun ev => ev = EvDial (Address creds)
                    \/ ev = EvHandshake (Address creds) (Username creds)) evs ->
  Forall (fun ev => isClose ev = false) evs.
Proof.
  intros H. eapply Forall_impl; [exact H|].
  intros ev [-> | ->]; reflexivity.
Qed.

(** Every return of [Execute] but one goes through [buildResult]; the one
    that does not is the failed request of a pseudo-terminal.  The result
    built carries the reading of the clock taken on entry, before any call to
    the network, and the reading taken when the result is built, after the
    calls [calls] and before the deferred [closes]. *)
Lemma execute_builds_result_or_pty_failure env e job creds w :
  (exists err0,
      validateJob e job = None /\ AllowTTY job = true
      /\ requestPty env = Some err0
      /\ fst (Execute env e job creds w)
         = (zeroResult, Some (wrapError ("request pty: " +:+ errorText err0) err0)))
  \/ (exists calls closes stdout stderr,
      fst (fst (Execute env e job creds w))
      = built env job w calls stdout stderr (snd (fst (Execute env e job creds w)))
      /\ snd (Execute env e job creds w)
         = {| ticks := S (S (ticks w)); trace := trace w ++ calls ++ closes |}
      /\ Forall (fun ev => isClose ev = false) calls
      /\ Forall (fun ev => isClose ev = true) closes).
Proof.
  destruct (validateJob e job) as [verr|] eqn:Hv.
  { right. exists [], [], "", "".
    rewrite (execute_validation_failure env e job creds w verr Hv).
    unfold built. simpl. rewrite !app_nil_r.
    repeat split; constructor. }
  unfold Execute, buildResult, bind, nowUTC, now, ret, emit, built, readingUTC,
    Time_UTC.
  rewrite Hv. simpl.
  destruct (newClient_events env e creds {| ticks := S (ticks w); trace := trace w |})
    as (cevs & Hw1 & Hcevs & _ & _).
  apply newClient_calls_are_no_close in Hcevs.
  destruct (newClient env e creds {| ticks := S (ticks w); trace := trace w |})
    as [c w1]. simpl in Hw1. subst w1.
  destruct c as [cerr|].
  { right. exists cevs, [], "", "". simpl. rewrite !app_nil_r.
    repeat split; [exact Hcevs | constructor]. }
  destruct (newSession env) as [serr|].
  { right. exists (cevs ++ [EvNewSession]), [EvClientClose], "", "". simpl.
    rewrite <- !app_assoc. simpl. rewrite !app_assoc.
    repeat split; [|repeat constructor].
    apply Forall_app; split; [exact Hcevs | repeat constructor]. }
  destruct (AllowTTY job) eqn:Htty.
  - destruct (requestPty env) as [perr|] eqn:Hpty.
    + left. exists perr. repeat split; reflexivity.
    + right. destruct (sessionRun env) as [c stdout stderr|rerr stdout stderr];
        exists (cevs ++ [EvNewSession; EvRequestPty; EvRun (Command job)]),
               [EvSessionClose; EvClientClose], stdout, stderr; simpl;
        rewrite <- !app_assoc; simpl; rewrite !app_assoc;
        (repeat split; [|repeat constructor]);
        (apply Forall_app; split; [exact Hcevs | repeat constructor]).
  - right.
    destruct (sessionRun env) as [c stdout stderr|rerr stdout stderr];
      exists (cevs ++ [EvNewSession; EvRun (Command job)]),
             [EvSessionClose; EvClientClose], stdout, stderr; simpl;
      rewrite <- !app_assoc; simpl; rewrite !app_assoc;
      (repeat split; [|repeat constructor]);
      (apply Forall_app; split; [exact Hcevs | repeat constructor]).
Qed.

(** C1. A job whose checksum is not the lowercase hexadecimal SHA-256 of its
    command fails validation, and [Execute] returns that error with a failed
    result without any call to the network: the trace of network calls is
    the one it started with, so no dial and no handshake happened. *)
Theorem checksum_mismatch_never_dials env e job creds w :
  Checksum job <> hex.EncodeToString (sha256.Sum256 (Command job)) ->
  exists err,
    validateJob e job = Some err
    /\ snd (fst (Execute env e job creds w)) = Some err
    /\ ResultStatus (fst (fst (Execute env e job creds w))) = StatusFailed
    /\ trace (snd (Execute env e job creds w)) = trace w
    /\ forall address, EvDial address ∈ trace (snd (Execute env e job creds w)) ->
                       EvDial address ∈ trace w.
Proof.
  intros Hsum.
  destruct (validateJob_checksum_mismatch e job Hsum) as [err Hv].
  exists err. rewrite (execute_validation_failure env e job creds w err Hv). simpl.
  repeat split; auto.
Qed.

Lemma checksum_mismatch_never_dials_witness :
  exists err,
    validateJob sampleExecutor tamperedJob = Some err
    /\ snd (fst (Execute (sampleEnv None) sampleExecutor tamperedJob sampleCreds
                   startWorld)) = Some err
    /\ ResultStatus (fst (fst (Execute (sampleEnv None) sampleExecutor tamperedJob
                                 sampleCreds startWorld))) = StatusFailed
    /\ trace (snd (Execute (sampleEnv None) sampleExecutor tamperedJob sampleCreds
                     startWorld)) = trace startWorld
    /\ forall address,
         EvDial address ∈ trace (snd (Execute (sampleEnv None) sampleExecutor
                                        tamperedJob sampleCreds startWorld)) ->
         EvDial address ∈ trace startWorld.
Proof.
  apply (checksum_mismatch_never_dials (sampleEnv None) sampleExecutor tamperedJob
           sampleCreds startWorld).
  vm_compute. discriminate.
Defined.

(** What the failure returns that go through [buildResult] give: the job's
    ID, the failed status, the text of the error and the exit code computed
    from the error. *)
Lemma execute_failure_built env e job creds w err :
  snd (fst (Execute env e job creds w)) = Some err ->
  (forall err0, err <> wrapError ("request pty: " +:+ errorText err0) err0) ->
  JobID (fst (fst (Execute env e job creds w))) = ID job
  /\ ResultStatus (fst (fst (Execute env e job creds w))) = StatusFailed
  /\ Error (fst (fst (Execute env e job creds w))) = errorText err
  /\ ExitCode (fst (fst (Execute env e job creds w)))
     = match asExitError err with Some status => status | None => -1 end.
Proof.
  intros Herr Hnotpty.
  destruct (execute_builds_result_or_pty_failure env e job creds w)
    as [(err0 & _ & _ & _ & Hout) | (calls & closes & stdout & stderr & Hout & _)].
  - rewrite Hout in Herr. simpl in Herr. injection Herr as <-.
    contradiction (Hnotpty err0). reflexivity.
  - rewrite Hout, Herr. repeat split; reflexivity.
Qed.

(** A return of [Execute] without error carries the succeeded status and
    the exit code 0. *)
Lemma execute_success_built env e job creds w :
  snd (fst (Execute env e job creds w)) = None ->
  JobID (fst (fst (Execute env e job creds w))) = ID job
  /\ ResultStatus (fst (fst (Execute env e job creds w))) = StatusSucceeded
  /\ ExitCode (fst (fst (Execute env e job creds w))) = 0
  /\ Error (fst (fst (Execute env e job creds w))) = "".
Proof.
  intros Hok.
  destruct (execute_builds_result_or_pty_failure env e job creds w)
    as [(err0 & _ & _ & _ & Hout) | (calls & closes & stdout & stderr & Hout & _)].
  - rewrite Hout in Hok. discriminate.
  - rewrite Hout, Hok. repeat split; reflexivity.
Qed.

(** C4, where the code departs from it. A job that asks for a
    pseudo-terminal, on a host that refuses the request: [Execute] returns an
    error together with the zero [Result], whose job ID is empty, whose
    status is not failed and whose error text is empty. *)
Lemma pty_failure_returns_zero_result :
  Execute (sampleEnv (Some ptyRefused)) sampleExecutor ttyJob sampleCreds startWorld
  = (zeroResult,
     Some (wrapError "request pty: pty refused" ptyRefused),
     {| ticks := 1;
        trace := [EvDial "h:22"; EvHandshake "h:22" "u"; EvNewSession;
                  EvRequestPty; EvSessionClose; EvClientClose] |})
  /\ JobID zeroResult <> ID ttyJob
  /\ ResultStatus zeroResult <> StatusFailed
  /\ Error zeroResult = "".
Proof.
  split; [vm_compute; reflexivity|].
  split; [vm_compute; discriminate|].
  split; [vm_compute; discriminate | reflexivity].
Qed.

(** C7, where the code departs from it. On the same input the failure is
    no exit error of the remote command, and the exit code of the result
    returned is 0 rather than -1. *)
Lemma pty_failure_exit_code_is_zero :
  exists err,
    snd (fst (Execute (sampleEnv (Some ptyRefused)) sampleExecutor ttyJob
                sampleCreds startWorld)) = Some err
    /\ asExitError err = None
    /\ ExitCode (fst (fst (Execute (sampleEnv (Some ptyRefused)) sampleExecutor
                             ttyJob sampleCreds startWorld))) = 0
    /\ exitCodeOf (Some err) = -1.
Proof.
  exists (wrapError "request pty: pty refused" ptyRefused).
  repeat split; vm_compute; reflexivity.
Qed.




End ExecutorProperties.

(** ** Strings and file names *)

Section StringFacts.

Lemma string_app_cons (c : ascii) (a b : string) :
  String c a +:+ b = String c (a +:+ b).
Proof. reflexivity. Qed.

Lemma string_length_app (a b : string) :
  String.length (a +:+ b) = (String.length a + String.length b)%nat.
Proof.
  induction a as [|c a IH]; [reflexivity|].
  rewrite string_app_cons. simpl. rewrite IH. reflexivity.
Qed.

Lemma string_app_assoc (a b c : string) : (a +:+ b) +:+ c = a +:+ (b +:+ c).
Proof.
  induction a as [|x a IH]; [reflexivity|].
  rewrite !string_app_cons, IH. reflexivity.
Qed.

Lemma string_get_app_r (p s : string) (k : nat) :
  String.get (String.length p + k) (p +:+ s) = String.get k s.
Proof.
  induction p as [|c p IH]; [reflexivity|].
  rewrite string_app_cons. simpl. exact IH.
Qed.

Lemma string_substring_app_r (p s : string) (k n : nat) :
  String.substring (String.length p + k) n (p +:+ s) = String.substring k n s.
Proof.
  induction p as [|c p IH]; [reflexivity|].
  rewrite string_app_cons. simpl. exact IH.
Qed.

Lemma string_substring_whole (s : string) :
  String.substring 0 (String.length s) s = s.
Proof. induction s as [|c s IH]; simpl; [reflexivity | rewrite IH; reflexivity]. Qed.

Lemma string_substring_app_l (p s : string) :
  String.substring 0 (String.length p) (p +:+ s) = p.
Proof.
  induction p as [|c p IH].
  - destruct s; reflexivity.
  - rewrite string_app_cons. simpl. rewrite IH. reflexivity.
Qed.

Lemma plainName_get (t : string) (k : nat) (c : ascii) :
  plainName t = true -> String.get k t = Some c ->
  filepath.IsPathSeparator c = false /\ Ascii.eqb c "." = false.
Proof.
  revert k. induction t as [|x t IH]; intros k Hplain Hget; [discriminate|].
  simpl in Hplain. apply andb_true_iff in Hplain. destruct Hplain as [Hx Ht].
  apply andb_true_iff in Hx. destruct Hx as [Hsep Hdot].
  destruct k as [|k]; simpl in Hget.
  - injection Hget as <-. split; apply negb_true_iff; assumption.
  - apply (IH k); assumption.
Qed.

Lemma string_get_lt (t : string) (k : nat) :
  (k < String.length t)%nat -> exists c, String.get k t = Some c.
Proof.
  revert k. induction t as [|x t IH]; intros k Hlt; simpl in Hlt; [lia|].
  destruct k as [|k]; simpl; [eexists; reflexivity|]. apply IH. lia.
Qed.

(** The loop of [Ext], started anywhere in a plain name that follows a dot,
    stops at that dot. *)
Lemma extLoop_stops_at_dot (p t : string) (k : nat) :
  plainName t = true -> (k <= String.length t)%nat ->
  filepath.extLoop (p +:+ String "." t) (String.length p + S k) = String "." t.
Proof.
  intros Hplain. induction k as [|k IH]; intros Hk.
  - replace (String.length p + 1)%nat with (S (String.length p + 0)) by lia.
    simpl. rewrite string_get_app_r. simpl.
    rewrite string_length_app. simpl.
    replace (String.length p + S (String.length t) - (String.length p + 0))%nat
      with (S (String.length t)) by lia.
    rewrite string_substring_app_r. simpl.
    rewrite string_substring_whole. reflexivity.
  - replace (String.length p + S (S k))%nat with (S (String.length p + S k)) by lia.
    cbn [filepath.extLoop]. rewrite string_get_app_r. cbn [String.get].
    destruct (string_get_lt t k) as [c Hc]; [lia|].
    rewrite Hc.
    destruct (plainName_get t k c Hplain Hc) as [Hsep Hdot].
    rewrite Hsep, Hdot. apply IH. lia.
Qed.

Lemma Ext_of_appended_extension (p t : string) :
  plainName t = true -> filepath.Ext (p +:+ String "." t) = String "." t.
Proof.
  intros Hplain. unfold filepath.Ext. rewrite string_length_app. simpl.
  apply extLoop_stops_at_dot; [exact Hplain | lia].
Qed.

Lemma TrimSuffix_of_appended (q s : string) : strings.TrimSuffix (q +:+ s) s = q.
Proof.
  unfold strings.TrimSuffix, strings.HasSuffix. rewrite string_length_app.
  replace (String.length q + String.length s - String.length s)%nat
    with (String.length q + 0)%nat by lia.
  rewrite string_substring_app_r, string_substring_whole, String.eqb_refl.
  replace (String.length s <=? String.length q + String.length s)%nat with true
    by (symmetry; apply Nat.leb_le; lia).
  simpl. rewrite Nat.add_0_r. apply string_substring_app_l.
Qed.

End StringFacts.

(** ** The file-system transport *)

Section FilesystemProperties.
Import jobs transport transport.FilesystemTransport.

Lemma isJobFile_result_path (jobPath : string) :
  filepath.Ext (jobPath +:+ ".result.json") = ".json"
  /\ filepath.Ext (strings.TrimSuffix (jobPath +:+ ".result.json") ".json")
     = ".result"
  /\ isJobFile (jobPath +:+ ".result.json") = false.
Proof.
  assert (Hsplit : jobPath +:+ ".result.json" = (jobPath +:+ ".result") +:+ ".json")
    by (rewrite string_app_assoc; reflexivity).
  assert (Hext : filepath.Ext (jobPath +:+ ".result.json") = ".json")
    by (rewrite Hsplit; apply Ext_of_appended_extension; reflexivity).
  assert (Htrim : strings.TrimSuffix (jobPath +:+ ".result.json") ".json"
                  = jobPath +:+ ".result")
    by (rewrite Hsplit; apply TrimSuffix_of_appended).
  assert (Hpen : filepath.Ext (jobPath +:+ ".result") = ".result")
    by (apply Ext_of_appended_extension; reflexivity).
  split; [exact Hext|]. split; [rewrite Htrim; exact Hpen|].
  unfold isJobFile. rewrite Hext, Htrim, Hpen. reflexivity.
Qed.

Lemma walkInbox_selects_job_file (vs : list visit) :
  fst (walkInbox vs) = "" \/ isJobFile (fst (walkInbox vs)) = true.
Proof.
  induction vs as [|v rest IH]; simpl; [left; reflexivity|].
  destruct (walkErr v); [left; reflexivity|].
  destruct (IsDir v); [exact IH|].
  destruct (String.eqb (filepath.Ext (path v)) ".json") eqn:Hext; simpl;
    [|exact IH].
  destruct (String.eqb
              (filepath.Ext (strings.TrimSuffix (path v) (filepath.Ext (path v))))
              ".job") eqn:Hpen; simpl; [|exact IH].
  right. unfold isJobFile. rewrite Hext, Hpen. reflexivity.
Qed.

Lemma result_path_not_empty (jobPath : string) : jobPath +:+ ".result.json" <> "".
Proof.
  intros Heq. apply (f_equal String.length) in Heq.
  rewrite string_length_app in Heq. simpl in Heq. lia.
Qed.

(** C10. The scan of the inbox selects a path only when its last extension
    is [.json] and the extension before it is [.job]. A job path with
    [.result.json] appended has [.result] before its [.json], so it is no
    job file: neither the walk nor [scanInbox] ever selects it, and it is
    the only name [WriteResult] writes to. *)
Theorem inbox_scan_never_selects_result_file :
  (forall vs : list visit,
      fst (walkInbox vs) <> "" ->
      filepath.Ext (fst (walkInbox vs)) = ".json"
      /\ filepath.Ext (strings.TrimSuffix (fst (walkInbox vs))
                         (filepath.Ext (fst (walkInbox vs)))) = ".job")
  /\ (forall jobPath : string,
      filepath.Ext (jobPath +:+ ".result.json") = ".json"
      /\ filepath.Ext (strings.TrimSuffix (jobPath +:+ ".result.json") ".json")
         = ".result"
      /\ isJobFile (jobPath +:+ ".result.json") = false)
  /\ (forall (vs : list visit) (jobPath : string),
      fst (walkInbox vs) <> jobPath +:+ ".result.json")
  /\ (forall unmarshal tr fs (jobPath : string),
      fst (fst (scanInbox unmarshal tr fs)) <> jobPath +:+ ".result.json")
  /\ (forall marshalIndent tr (jobPath : string) result writeErr name data perm,
      EvWriteFile name data perm
        ∈ snd (WriteResult marshalIndent tr jobPath result writeErr) ->
      name = jobPath +:+ ".result.json" /\ isJobFile name = false).
Proof.
  assert (Hwalk : forall (vs : list visit) (jobPath : string),
             fst (walkInbox vs) <> jobPath +:+ ".result.json").
  { intros vs jobPath Heq.
    destruct (walkInbox_selects_job_file vs) as [Hnone | Hjob].
    - rewrite Hnone in Heq. symmetry in Heq. exact (result_path_not_empty _ Heq).
    - rewrite Heq in Hjob.
      destruct (isJobFile_result_path jobPath) as (_ & _ & Hnot). congruence. }
  split; [|split; [|split; [|split]]].
  - intros vs Hsel. destruct (walkInbox_selects_job_file vs) as [Hnone | Hjob];
      [contradiction|].
    unfold isJobFile in Hjob. apply andb_true_iff in Hjob. destruct Hjob as [H1 H2].
    apply String.eqb_eq in H1, H2. split; assumption.
  - exact isJobFile_result_path.
  - exact Hwalk.
  - intros unmarshal tr fs jobPath. unfold scanInbox.
    specialize (Hwalk (walk fs) jobPath).
    destruct (walkInbox (walk fs)) as [selected err]. simpl in Hwalk.
    assert (Hempty : "" <> jobPath +:+ ".result.json")
      by (intros Heq; symmetry in Heq; exact (result_path_not_empty _ Heq)).
    destruct (bool_decide (err <> None) || String.eqb selected ""); [exact Hempty|].
    destruct (ReadFile fs selected) as [rerr|fileData]; [exact Hempty|].
    destruct (unmarshal fileData) as [uerr|job]; [exact Hempty|].
    destruct (Validate job); [exact Hempty | exact Hwalk].
  - intros marshalIndent tr jobPath result writeErr name data perm Hin.
    unfold WriteResult in Hin.
    destruct (marshalIndent result "" " ") as [merr|payload]; simpl in Hin.
    + inversion Hin.
    + apply list_elem_of_singleton in Hin. injection Hin as -> _ _.
      split; [reflexivity | apply isJobFile_result_path].
Qed.

Lemma inbox_scan_never_selects_result_file_witness :
  filepath.Ext (fst (walkInbox (walk sampleInbox))) = ".json"
  /\ filepath.Ext (strings.TrimSuffix (fst (walkInbox (walk sampleInbox)))
                     (filepath.Ext (fst (walkInbox (walk sampleInbox))))) = ".job".
Proof.
  apply inbox_scan_never_selects_result_file.
  vm_compute. discriminate.
Defined.

Example scan_sample_inbox :
  scanInbox sampleUnmarshal sampleFilesystemTransport sampleInbox
  = ("inbox/b.job.json", Some sampleJob, None).
Proof. vm_compute. reflexivity. Qed.

End FilesystemProperties.

(** ** The HTTP transport *)

Section HTTPProperties.
Import jobs transport transport.HTTPTransport.

Variable json_Unmarshal : string -> error + JobDefinition.
Variable json_Marshal : Result -> error + string.

Lemma WriteResult_posts_at_most_once tr (jobID : string) (result : Result)
    (x : http.exchange) :
  (length (snd (WriteResult json_Marshal tr jobID result x)) <= 1)%nat.
Proof.
  unfold WriteResult.
  destruct (String.eqb (strings.TrimSpace jobID) ""); [simpl; lia|].
  destruct (json_Marshal result) as [merr|payload]; [simpl; lia|].
  destruct x as [err|err|code err|code body]; simpl; try lia.
  destruct (negb (code =? http.StatusAccepted)); simpl; lia.
Qed.

(** C9. The interval slept between two polls is the transport's
    [PollInterval] when that is positive, and two seconds when it is not.
    With a base URL configured, [NextJob] on a 204 response makes its one GET
    of the round, sleeps that interval and goes on polling; on a 200 response
    it returns the job decoded from the body when the body decodes and the
    job passes validation, and the error of decoding or validation
    otherwise; on any other status it returns an error at once, whatever
    would have come next.  [WriteResult], for a job ID that is not blank and
    a result that encodes, makes exactly one POST of the encoded result to
    the results endpoint of the job, and returns nil when the answer is 202
    and an error naming the status and the body for any other status; it
    returns the error of a request that failed or of a body that could not
    be read after that one POST; it returns nil only in the 202 case, and
    never makes a second POST. *)
Theorem http_transport_status_handling tr :
  String.eqb (strings.TrimSpace (BaseURL tr)) "" = false ->
  ((0 < PollInterval tr -> sleepInterval tr = PollInterval tr)
   /\ (PollInterval tr <= 0 -> sleepInterval tr = 2 * Second))
  /\ (forall body rest,
      NextJob json_Unmarshal tr (Go (http.Response http.StatusNoContent body) :: rest)
      = (fst (NextJob json_Unmarshal tr rest),
         EvGet (BaseURL tr +:+ "/v1/queue/next")
         :: EvSleep (sleepInterval tr)
         :: snd (NextJob json_Unmarshal tr rest)))
  /\ (forall body rest,
      NextJob json_Unmarshal tr (Go (http.Response http.StatusOK body) :: rest)
      = (match json_Unmarshal body with
         | inl err => Failed err
         | inr job =>
             match Validate job with
             | Some err => Failed err
             | None => GotJob job (ID job)
             end
         end,
         [EvGet (BaseURL tr +:+ "/v1/queue/next")]))
  /\ (forall code body rest,
      code <> http.StatusNoContent -> code <> http.StatusOK ->
      NextJob json_Unmarshal tr (Go (http.Response code body) :: rest)
      = (Failed (errorString ("controller returned " +:+ strconv.Itoa code
                              +:+ ": " +:+ strings.TrimSpace body)),
         [EvGet (BaseURL tr +:+ "/v1/queue/next")]))
  /\ (forall jobID result payload,
      String.eqb (strings.TrimSpace jobID) "" = false ->
      json_Marshal result = inr payload ->
      (forall code body,
          WriteResult json_Marshal tr jobID result (http.Response code body)
          = (if code =? http.StatusAccepted then None
             else Some (errorString ("controller rejected result ("
                                     +:+ strconv.Itoa code +:+ "): "
                                     +:+ strings.TrimSpace body)),
             [EvPost (BaseURL tr +:+ "/v1/jobs/" +:+ jobID +:+ "/results")
                     payload]))
      /\ (forall err,
          WriteResult json_Marshal tr jobID result (http.DoFails err)
          = (Some err,
             [EvPost (BaseURL tr +:+ "/v1/jobs/" +:+ jobID +:+ "/results")
                     payload]))
      /\ (forall code readErr,
          WriteResult json_Marshal tr jobID result (http.ReadFails code readErr)
          = (Some readErr,
             [EvPost (BaseURL tr +:+ "/v1/jobs/" +:+ jobID +:+ "/results")
                     payload])))
  /\ (forall jobID result x,
      fst (WriteResult json_Marshal tr jobID result x) = None ->
      exists payload body,
        json_Marshal result = inr payload
        /\ x = http.Response http.StatusAccepted body
        /\ snd (WriteResult json_Marshal tr jobID result x)
           = [EvPost (BaseURL tr +:+ "/v1/jobs/" +:+ jobID +:+ "/results") payload])
  /\ (forall jobID result code body,
      code <> http.StatusAccepted ->
      fst (WriteResult json_Marshal tr jobID result (http.Response code body))
      <> None)
  /\ (forall jobID result x,
      (length (snd (WriteResult json_Marshal tr jobID result x)) <= 1)%nat).
Proof.
  intros Hbase.
  split; [|split; [|split; [|split; [|split; [|split; [|split]]]]]].
  - unfold sleepInterval. split; intros Hpoll.
    + destruct (Z.leb_spec (PollInterval tr) 0); [lia | reflexivity].
    + destruct (Z.leb_spec (PollInterval tr) 0); [reflexivity | lia].
  - intros body rest. unfold NextJob. rewrite Hbase. reflexivity.
  - intros body rest. unfold NextJob. rewrite Hbase. cbn [pollLoop pollOnce].
    change (http.StatusOK =? http.StatusNoContent) with false.
    change (http.StatusOK =? http.StatusOK) with true. cbv iota.
    destruct (json_Unmarshal body) as [err|job]; [reflexivity|].
    destruct (Validate job); reflexivity.
  - intros code body rest Hno Hok. unfold NextJob. rewrite Hbase.
    cbn [pollLoop pollOnce].
    apply Z.eqb_neq in Hno, Hok. rewrite Hno, Hok. reflexivity.
  - intros jobID result payload Hid Hpayload. unfold WriteResult.
    rewrite Hid, Hpayload. split; [|split; reflexivity].
    intros code body. destruct (code =? http.StatusAccepted); reflexivity.
  - intros jobID result x. unfold WriteResult.
    destruct (String.eqb (strings.TrimSpace jobID) ""); [discriminate|].
    destruct (json_Marshal result) as [merr|payload]; [discriminate|].
    destruct x as [err|err|code err|code body]; try discriminate.
    destruct (code =? http.StatusAccepted) eqn:Hcode; simpl; [|discriminate].
    intros _. apply Z.eqb_eq in Hcode. subst code.
    exists payload, body. repeat split; reflexivity.
  - intros jobID result code body Hcode. unfold WriteResult.
    destruct (String.eqb (strings.TrimSpace jobID) ""); [discriminate|].
    destruct (json_Marshal result) as [merr|payload]; [discriminate|].
    apply Z.eqb_neq in Hcode. rewrite Hcode. discriminate.
  - apply WriteResult_posts_at_most_once.
Qed.

End HTTPProperties.

Lemma http_transport_status_handling_witness :
  transport.HTTPTransport.NextJob sampleUnmarshal pacedHTTPTransport
    [transport.Go (http.Response 204 ""); transport.Go (http.Response 200 "{}")]
  = (transport.GotJob sampleJob "j1",
     [transport.HTTPTransport.EvGet "http://c:8080/v1/queue/next";
      transport.HTTPTransport.EvSleep (5 * Second);
      transport.HTTPTransport.EvGet "http://c:8080/v1/queue/next"])
  /\ fst (transport.HTTPTransport.NextJob sampleUnmarshal pacedHTTPTransport
            [transport.Go (http.Response 500 " boom ");
             transport.Go (http.Response 200 "{}")])
     = transport.Failed (errorString "controller returned 500: boom")
  /\ transport.HTTPTransport.WriteResult sampleMarshal pacedHTTPTransport "j1"
       (sampleResult jobs.StatusSucceeded) (http.Response 500 " boom ")
     = (Some (errorString "controller rejected result (500): boom"),
        [transport.HTTPTransport.EvPost "http://c:8080/v1/jobs/j1/results" "{}"]).
Proof.
  destruct (http_transport_status_handling sampleUnmarshal sampleMarshal
              pacedHTTPTransport)
    as ((Hpaced & _) & H204 & H200 & Hother & Hwrite & _).
  { vm_compute. reflexivity. }
  split; [|split].
  - rewrite H204, H200, Hpaced; [vm_compute; reflexivity | reflexivity].
  - rewrite Hother; [vm_compute; reflexivity | discriminate | discriminate].
  - destruct (Hwrite "j1" (sampleResult jobs.StatusSucceeded) "{}")
      as (Hresponse & _); [vm_compute; reflexivity | reflexivity |].
    rewrite Hresponse. vm_compute. reflexivity.
Defined.

(** * Further properties of the code *)

(** ** The job store along arbitrary runs *)

Section StoreRuns.
Import jobs controller.

Implicit Types (s : Store) (j : JobDefinition) (r : Result) (ops : list op).

(** No operation removes a record. *)
Lemma step_keeps_records s o (jobID : string) :
  records (step s o) !! jobID = None -> records s !! jobID = None.
Proof.
  destruct o as [j| |r|jobID']; simpl.
  - unfold Enqueue. destruct (Validate j); [auto|].
    destruct (records s !! ID j); [auto|]. simpl.
    intros H. apply lookup_insert_None in H. tauto.
  - unfold Next. destruct (queue s) as [|jobID0 rest]; [auto|].
    destruct (records s !! jobID0); [|auto]. simpl.
    intros H. apply lookup_insert_None in H. tauto.
  - unfold Complete. destruct (records s !! JobID r); [|auto]. simpl.
    intros H. apply lookup_insert_None in H. tauto.
  - auto.
Qed.

Lemma step_keeps_waiting s o (qj : list JobDefinition) :
  waitingJobs s qj ->
  exists qj',
    waitingJobs (step s o) qj'
    /\ qj ++ accepted s [o] = served s [o] ++ qj'.
Proof.
  intros [Hids Hjobs]. destruct o as [j| |r|jobID]; simpl.
  - unfold Enqueue. destruct (Validate j) as [verr|]; simpl.
    { exists qj. rewrite !app_nil_r. split; [split; assumption | reflexivity]. }
    destruct (records s !! ID j) as [rec|] eqn:Hrec; simpl.
    { exists qj. rewrite !app_nil_r. split; [split; assumption | reflexivity]. }
    exists (qj ++ [j]). split; [|reflexivity]. split; simpl.
    + rewrite map_app, Hids. reflexivity.
    + intros j' Hin. rewrite lookup_insert.
      destruct (decide (ID j = ID j')) as [Heq|Hne].
      * apply elem_of_app in Hin. destruct Hin as [Hin|Hin].
        -- apply Hjobs in Hin. rewrite <- Heq, Hrec in Hin. discriminate.
        -- apply list_elem_of_singleton in Hin. subst j'. reflexivity.
      * apply elem_of_app in Hin. destruct Hin as [Hin|Hin]; [apply Hjobs, Hin|].
        apply list_elem_of_singleton in Hin. subst j'. contradiction Hne; reflexivity.
  - unfold Next. destruct (queue s) as [|jobID0 rest] eqn:Hq; simpl.
    { exists qj. rewrite app_nil_r. split; [split; [congruence | assumption] | reflexivity]. }
    destruct qj as [|j0 qrest]; [discriminate|]. simpl in Hids.
    injection Hids as Hid0 Hrest.
    assert (Hhead : job <$> records s !! ID j0 = Some j0) by (apply Hjobs; left).
    rewrite Hid0 in Hhead.
    destruct (records s !! jobID0) as [rec|] eqn:Hrec; [|discriminate].
    simpl in Hhead. injection Hhead as Hjob. simpl.
    exists qrest. split.
    + split; simpl; [exact Hrest|].
      intros j' Hin. rewrite lookup_insert.
      destruct (decide (jobID0 = ID j')) as [Heq|Hne].
      * simpl. assert (Hj' : job <$> records s !! ID j' = Some j')
          by (apply Hjobs; right; exact Hin).
        rewrite <- Heq, Hrec in Hj'. exact Hj'.
      * apply Hjobs. right. exact Hin.
    + rewrite app_nil_r, Hjob. reflexivity.
  - unfold Complete. destruct (records s !! JobID r) as [rec|] eqn:Hrec; simpl.
    + exists qj. rewrite app_nil_r. split; [|reflexivity].
      split; simpl; [exact Hids|].
      intros j' Hin. rewrite lookup_insert.
      destruct (decide (JobID r = ID j')) as [Heq|Hne]; [|apply Hjobs, Hin].
      simpl. apply Hjobs in Hin. rewrite <- Heq, Hrec in Hin. exact Hin.
    + exists qj. rewrite app_nil_r. split; [split; assumption | reflexivity].
  - exists qj. rewrite app_nil_r. split; [split; assumption | reflexivity].
Qed.

Lemma accepted_cons s o ops :
  accepted s (o :: ops) = accepted s [o] ++ accepted (step s o) ops.
Proof. simpl. rewrite app_nil_r. reflexivity. Qed.

Lemma served_cons s o ops :
  served s (o :: ops) = served s [o] ++ served (step s o) ops.
Proof. simpl. rewrite app_nil_r. reflexivity. Qed.

Lemma run_keeps_waiting ops : forall s (qj : list JobDefinition),
  waitingJobs s qj ->
  exists qj',
    waitingJobs (run s ops) qj'
    /\ qj ++ accepted s ops = served s ops ++ qj'.
Proof.
  induction ops as [|o rest IH]; intros s qj Hw.
  - exists qj. simpl. rewrite app_nil_r. split; [exact Hw | reflexivity].
  - destruct (step_keeps_waiting s o qj Hw) as (qj1 & Hw1 & Heq1).
    destruct (IH (step s o) qj1 Hw1) as (qj2 & Hw2 & Heq2).
    exists qj2. split; [exact Hw2|].
    rewrite accepted_cons, served_cons, app_assoc, Heq1, <- !app_assoc, Heq2.
    reflexivity.
Qed.

(** X1. First in, first out, along every run of the four operations from
    the empty store: the jobs accepted by [Enqueue], in the order of
    acceptance, are the jobs [Next] has returned, in the order returned,
    followed by the jobs still queued, in the order of the queue. *)
Theorem store_serves_in_order_of_acceptance ops :
  exists waiting,
    accepted NewStore ops = served NewStore ops ++ waiting
    /\ List.map ID waiting = queue (run NewStore ops)
    /\ forall j, j ∈ waiting ->
         job <$> records (run NewStore ops) !! ID j = Some j.
Proof.
  destruct (run_keeps_waiting ops NewStore []) as (qj & [Hids Hjobs] & Heq).
  - split; [reflexivity|]. intros j Hin. inversion Hin.
  - exists qj. simpl in Heq. auto.
Qed.

Lemma accepted_fresh ops : forall s,
  NoDup (List.map ID (accepted s ops))
  /\ forall j, j ∈ accepted s ops -> records s !! ID j = None.
Proof.
  induction ops as [|o rest IH]; intros s.
  - split; [apply NoDup_nil_2|]. intros j Hin. inversion Hin.
  - destruct (IH (step s o)) as [Hnodup Hfresh].
    assert (Hlater : forall j, j ∈ accepted (step s o) rest -> records s !! ID j = None)
      by (intros j Hin; apply (step_keeps_records s o), Hfresh, Hin).
    rewrite accepted_cons.
    destruct o as [j0| |r|jobID]; simpl; try (split; assumption).
    change (step s (OpEnqueue j0)) with (fst (Enqueue s j0)) in *.
    unfold Enqueue in *.
    destruct (Validate j0); simpl in *; [split; assumption|].
    destruct (records s !! ID j0) eqn:Hrec; simpl in *; [split; assumption|].
    split.
    + apply NoDup_cons. split; [|exact Hnodup].
      intros Hin. apply list_elem_of_fmap in Hin. destruct Hin as (j & Hid & Hin).
      apply Hfresh in Hin. rewrite <- Hid, lookup_insert_eq in Hin. discriminate.
    + intros j Hin. apply elem_of_cons in Hin. destruct Hin as [->|Hin];
        [exact Hrec | apply Hlater, Hin].
Qed.

(** X2. Along every run from the empty store no job is handed out twice:
    the jobs returned by the calls of [Next] have pairwise different IDs,
    and so have the jobs accepted by [Enqueue]. *)
Theorem store_serves_each_job_once ops :
  NoDup (List.map ID (served NewStore ops))
  /\ NoDup (List.map ID (accepted NewStore ops)).
Proof.
  destruct (accepted_fresh ops NewStore) as [Hnodup _].
  split; [|exact Hnodup].
  destruct (run_keeps_waiting ops NewStore []) as (waiting & _ & Heq).
  - split; [reflexivity|]. intros j Hin. inversion Hin.
  - simpl in Heq. rewrite Heq, map_app in Hnodup. apply NoDup_app in Hnodup. tauto.
Qed.

Lemma step_keeps_job s o (jobID : string) (rec : jobRecord) :
  records s !! jobID = Some rec ->
  exists rec', records (step s o) !! jobID = Some rec' /\ job rec' = job rec.
Proof.
  intros Hrec. destruct o as [j| |r|jobID']; simpl.
  - unfold Enqueue. destruct (Validate j); [eauto|].
    destruct (records s !! ID j) eqn:Hj; [eauto|]. simpl.
    rewrite lookup_insert_ne by congruence. eauto.
  - unfold Next. destruct (queue s) as [|jobID0 rest]; [eauto|].
    destruct (records s !! jobID0) as [rec0|] eqn:H0; [|eauto]. simpl.
    rewrite lookup_insert. destruct (decide (jobID0 = jobID)) as [->|Hne]; [|eauto].
    eexists. split; [reflexivity|]. simpl. congruence.
  - unfold Complete. destruct (records s !! JobID r) as [rec0|] eqn:H0; [|eauto].
    simpl. rewrite lookup_insert.
    destruct (decide (JobID r = jobID)) as [Heq|Hne]; [|eauto].
    eexists. split; [reflexivity|]. simpl. congruence.
  - eauto.
Qed.

(** X3. A job definition is never changed or dropped once it is in the
    store: whatever operations follow, the record under its ID is still
    there and still holds the same job. *)
Theorem store_keeps_job_definition ops s (jobID : string) (rec : jobRecord) :
  records s !! jobID = Some rec ->
  exists rec', records (run s ops) !! jobID = Some rec' /\ job rec' = job rec.
Proof.
  revert s rec. induction ops as [|o rest IH]; intros s rec Hrec; [eauto|].
  destruct (step_keeps_job s o jobID rec Hrec) as (rec1 & Hrec1 & Hjob1).
  destruct (IH (step s o) rec1 Hrec1) as (rec2 & Hrec2 & Hjob2).
  exists rec2. split; [exact Hrec2 | congruence].
Qed.

Lemma store_keeps_job_definition_witness :
  exists rec',
    records (run sampleStore
               [OpNext; OpComplete (sampleResult StatusFailed);
                OpEnqueue sampleJobNoHost]) !! "j1" = Some rec'
    /\ job rec' = sampleJob.
Proof.
  apply (store_keeps_job_definition
           [OpNext; OpComplete (sampleResult StatusFailed); OpEnqueue sampleJobNoHost]
           sampleStore "j1"
           {| job := sampleJob; status := StatusPending; result := None |}).
  vm_compute. reflexivity.
Defined.

Lemma step_keeps_keys s o :
  (forall jobID rec, records s !! jobID = Some rec ->
     ID (job rec) = jobID /\ forall res, result rec = Some res -> JobID res = jobID) ->
  forall jobID rec, records (step s o) !! jobID = Some rec ->
     ID (job rec) = jobID /\ forall res, result rec = Some res -> JobID res = jobID.
Proof.
  intros Hkeys jobID rec. destruct o as [j| |r|jobID']; simpl.
  - unfold Enqueue. destruct (Validate j); [apply Hkeys|].
    destruct (records s !! ID j) eqn:Hj; [apply Hkeys|]. simpl.
    rewrite lookup_insert. destruct (decide (ID j = jobID)) as [Heq|Hne];
      [|apply Hkeys].
    intros [= <-]. simpl. split; [exact Heq | discriminate].
  - unfold Next. destruct (queue s) as [|jobID0 rest]; [apply Hkeys|].
    destruct (records s !! jobID0) as [rec0|] eqn:H0; [|apply Hkeys]. simpl.
    rewrite lookup_insert. destruct (decide (jobID0 = jobID)) as [Heq|Hne];
      [|apply Hkeys].
    intros [= <-]. simpl. subst jobID. exact (Hkeys _ _ H0).
  - unfold Complete. destruct (records s !! JobID r) as [rec0|] eqn:H0;
      [|apply Hkeys]. simpl.
    rewrite lookup_insert. destruct (decide (JobID r = jobID)) as [Heq|Hne];
      [|apply Hkeys].
    intros [= <-]. simpl. split.
    + subst jobID. exact (proj1 (Hkeys _ _ H0)).
    + intros res [= <-]. exact Heq.
  - apply Hkeys.
Qed.

Lemma run_keeps_keys ops : forall s,
  (forall jobID rec, records s !! jobID = Some rec ->
     ID (job rec) = jobID /\ forall res, result rec = Some res -> JobID res = jobID) ->
  forall jobID rec, records (run s ops) !! jobID = Some rec ->
     ID (job rec) = jobID /\ forall res, result rec = Some res -> JobID res = jobID.
Proof.
  induction ops as [|o rest IH]; intros s Hkeys; [exact Hkeys|].
  apply IH, step_keeps_keys, Hkeys.
Qed.

Lemma Lookup_result s (jobID : string) :
  snd (fst (Lookup s jobID)) = records s !! jobID ≫= result.
Proof.
  unfold Lookup. destruct (records s !! jobID) as [rec|]; simpl; [|reflexivity].
  destruct (result rec); reflexivity.
Qed.

(** X4. On every store reached from the empty one, the record found under
    an ID holds the job with that ID, and the result [Lookup] returns for an
    ID is a result reported for that ID. *)
Theorem store_keys_name_jobs_and_results ops (jobID : string) :
  (forall rec, records (run NewStore ops) !! jobID = Some rec ->
     ID (job rec) = jobID)
  /\ (forall res, snd (fst (Lookup (run NewStore ops) jobID)) = Some res ->
      JobID res = jobID).
Proof.
  assert (Hkeys : forall jobID rec, records (run NewStore ops) !! jobID = Some rec ->
     ID (job rec) = jobID /\ forall res, result rec = Some res -> JobID res = jobID).
  { apply run_keeps_keys. intros id rec Hrec. simpl in Hrec.
    rewrite lookup_empty in Hrec. discriminate. }
  split.
  - intros rec Hrec. exact (proj1 (Hkeys _ _ Hrec)).
  - intros res. rewrite Lookup_result.
    destruct (records (run NewStore ops) !! jobID) as [rec|] eqn:Hrec; simpl;
      [|discriminate].
    intros Hres. exact (proj2 (Hkeys _ _ Hrec) res Hres).
Qed.

Lemma store_keys_name_jobs_and_results_witness :
  JobID (sampleResult StatusSucceeded) = "j1".
Proof.
  apply (store_keys_name_jobs_and_results
           [OpEnqueue sampleJob; OpNext; OpComplete (sampleResult StatusSucceeded)]
           "j1").
  vm_compute. reflexivity.
Defined.

Lemma step_without_complete s o (jobID : string) :
  completes jobID [o] = false ->
  match records s !! jobID with
  | Some rec =>
      result rec = None /\ (status rec = StatusPending \/ status rec = StatusRunning)
  | None => True
  end ->
  match records (step s o) !! jobID with
  | Some rec =>
      result rec = None /\ (status rec = StatusPending \/ status rec = StatusRunning)
  | None => True
  end.
Proof.
  intros Hno Hs. destruct o as [j| |r|jobID']; simpl.
  - unfold Enqueue. destruct (Validate j); [exact Hs|].
    destruct (records s !! ID j) eqn:Hj; [exact Hs|]. simpl.
    rewrite lookup_insert. destruct (decide (ID j = jobID)); [|exact Hs].
    simpl. auto.
  - unfold Next. destruct (queue s) as [|jobID0 rest]; [exact Hs|].
    destruct (records s !! jobID0) as [rec0|] eqn:H0; [|exact Hs]. simpl.
    rewrite lookup_insert. destruct (decide (jobID0 = jobID)) as [->|]; [|exact Hs].
    simpl. rewrite H0 in Hs. split; [tauto | right; reflexivity].
  - simpl in Hno. rewrite orb_false_r in Hno. apply String.eqb_neq in Hno.
    unfold Complete. destruct (records s !! JobID r); [|exact Hs]. simpl.
    rewrite lookup_insert_ne by exact Hno. exact Hs.
  - exact Hs.
Qed.

Lemma completes_cons (jobID : string) o ops :
  completes jobID (o :: ops) = completes jobID [o] || completes jobID ops.
Proof. destruct o; simpl; rewrite ?orb_false_r; reflexivity. Qed.

Lemma run_without_complete ops (jobID : string) : forall s,
  completes jobID ops = false ->
  match records s !! jobID with
  | Some rec =>
      result rec = None /\ (status rec = StatusPending \/ status rec = StatusRunning)
  | None => True
  end ->
  match records (run s ops) !! jobID with
  | Some rec =>
      result rec = None /\ (status rec = StatusPending \/ status rec = StatusRunning)
  | None => True
  end.
Proof.
  induction ops as [|o rest IH]; intros s Hno Hs; [exact Hs|].
  rewrite completes_cons in Hno. apply orb_false_iff in Hno. destruct Hno as [Ho Hrest].
  apply IH; [exact Hrest | apply step_without_complete; assumption].
Qed.

(** X5. Until a [Complete] for a job has been run, [Lookup] of that job
    returns no result, and the status it returns for a known job is pending
    or running. *)
Theorem lookup_has_no_result_before_complete ops (jobID : string) :
  completes jobID ops = false ->
  snd (fst (Lookup (run NewStore ops) jobID)) = None
  /\ (snd (Lookup (run NewStore ops) jobID) = true ->
      fst (fst (Lookup (run NewStore ops) jobID)) = StatusPending
      \/ fst (fst (Lookup (run NewStore ops) jobID)) = StatusRunning).
Proof.
  intros Hno.
  pose proof (run_without_complete ops jobID NewStore Hno) as Hrun.
  simpl in Hrun. rewrite lookup_empty in Hrun. specialize (Hrun I).
  unfold Lookup. destruct (records (run NewStore ops) !! jobID) as [rec|]; simpl.
  - destruct Hrun as [Hres Hst]. rewrite Hres. simpl. auto.
  - split; [reflexivity | discriminate].
Qed.

Lemma lookup_has_no_result_before_complete_witness :
  snd (fst (Lookup (run NewStore [OpEnqueue sampleJob; OpNext; OpLookup "j1"]) "j1"))
  = None.
Proof.
  apply (lookup_has_no_result_before_complete
           [OpEnqueue sampleJob; OpNext; OpLookup "j1"] "j1").
  reflexivity.
Defined.

(** X6. After a successful [Enqueue] of a job, [Lookup] of its ID finds it
    pending without a result, and [Lookup] of any other ID answers as
    before. *)
Theorem enqueue_then_lookup_is_pending s j :
  Validate j = None ->
  records s !! ID j = None ->
  snd (Enqueue s j) = None
  /\ Lookup (fst (Enqueue s j)) (ID j) = (StatusPending, None, true)
  /\ forall jobID, jobID <> ID j ->
       Lookup (fst (Enqueue s j)) jobID = Lookup s jobID.
Proof.
  intros Hvalid Hfresh. unfold Enqueue. rewrite Hvalid, Hfresh. simpl.
  split; [reflexivity|]. split.
  - unfold Lookup. simpl. rewrite lookup_insert_eq. reflexivity.
  - intros jobID Hne. unfold Lookup. simpl.
    rewrite lookup_insert_ne by congruence. reflexivity.
Qed.

Lemma enqueue_then_lookup_is_pending_witness :
  snd (Enqueue NewStore sampleJob) = None
  /\ Lookup (fst (Enqueue NewStore sampleJob)) (ID sampleJob)
     = (StatusPending, None, true)
  /\ forall jobID, jobID <> ID sampleJob ->
       Lookup (fst (Enqueue NewStore sampleJob)) jobID = Lookup NewStore jobID.
Proof.
  apply (enqueue_then_lookup_is_pending NewStore sampleJob).
  - vm_compute. reflexivity.
  - reflexivity.
Defined.

End StoreRuns.

(** ** Validation of jobs *)

Section ValidationProperties.
Import jobs.

Section Runes.

Variable two : ascii -> ascii -> bool.
Variable three : ascii -> ascii -> ascii -> bool.

Lemma trimRunes_cons (b0 : ascii) (r0 : list ascii) :
  strings.trimRunes two three (b0 :: r0)
  = if strings.isSpace b0 then strings.trimRunes two three r0
    else match r0 with
         | [] => b0 :: r0
         | b1 :: r1 =>
             if two b0 b1 then strings.trimRunes two three r1
             else match r1 with
                  | [] => b0 :: r0
                  | b2 :: r2 =>
                      if three b0 b1 b2 then strings.trimRunes two three r2
                      else b0 :: r0
                  end
         end.
Proof. destruct r0 as [|b1 [|b2 r2]]; reflexivity. Qed.

Lemma blankRunes_cons (b0 : ascii) (r0 : list ascii) :
  blankRunes two three (b0 :: r0)
  = if strings.isSpace b0 then blankRunes two three r0
    else match r0 with
         | [] => false
         | b1 :: r1 =>
             if two b0 b1 then blankRunes two three r1
             else match r1 with
                  | [] => false
                  | b2 :: r2 => three b0 b1 b2 && blankRunes two three r2
                  end
         end.
Proof. destruct r0 as [|b1 [|b2 r2]]; reflexivity. Qed.

Lemma trimRunes_nil_blank (n : nat) : forall bs : list ascii,
  (length bs <= n)%nat ->
  (strings.trimRunes two three bs = [] <-> blankRunes two three bs = true).
Proof.
  induction n as [|n IH]; intros bs Hlen.
  - destruct bs; [split; reflexivity | simpl in Hlen; lia].
  - destruct bs as [|b0 r0]; [split; reflexivity|].
    rewrite trimRunes_cons, blankRunes_cons. simpl in Hlen.
    destruct (strings.isSpace b0); [apply IH; lia|].
    destruct r0 as [|b1 r1]; [split; discriminate|]. simpl in Hlen.
    destruct (two b0 b1); [apply IH; lia|].
    destruct r1 as [|b2 r2]; [split; discriminate|]. simpl in Hlen.
    destruct (three b0 b1 b2); [apply IH; lia | split; discriminate].
Qed.

Lemma trimRunes_idem (n : nat) : forall bs : list ascii,
  (length bs <= n)%nat ->
  strings.trimRunes two three (strings.trimRunes two three bs)
  = strings.trimRunes two three bs.
Proof.
  induction n as [|n IH]; intros bs Hlen.
  - destruct bs; [reflexivity | simpl in Hlen; lia].
  - destruct bs as [|b0 r0]; [reflexivity|].
    rewrite (trimRunes_cons b0 r0). simpl in Hlen.
    destruct (strings.isSpace b0) eqn:H0; [apply IH; lia|].
    destruct r0 as [|b1 r1]; [rewrite trimRunes_cons, H0; reflexivity|].
    simpl in Hlen.
    destruct (two b0 b1) eqn:H1; [apply IH; lia|].
    destruct r1 as [|b2 r2]; [rewrite trimRunes_cons, H0, H1; reflexivity|].
    simpl in Hlen.
    destruct (three b0 b1 b2) eqn:H2; [apply IH; lia|].
    rewrite trimRunes_cons, H0, H1, H2. reflexivity.
Qed.

Lemma blankRunes_app (n : nat) : forall a b : list ascii,
  (length a <= n)%nat ->
  blankRunes two three a = true -> blankRunes two three b = true ->
  blankRunes two three (a ++ b) = true.
Proof.
  induction n as [|n IH]; intros a b Hlen Ha Hb.
  - destruct a; [exact Hb | simpl in Hlen; lia].
  - destruct a as [|b0 r0]; [exact Hb|].
    rewrite <- app_comm_cons. rewrite blankRunes_cons in Ha |- *. simpl in Hlen.
    destruct (strings.isSpace b0); [apply IH; [lia | assumption..]|].
    destruct r0 as [|b1 r1]; [discriminate|]. simpl in Hlen.
    rewrite <- app_comm_cons.
    destruct (two b0 b1); [apply IH; [lia | assumption..]|].
    destruct r1 as [|b2 r2]; [discriminate|]. simpl in Hlen.
    rewrite <- app_comm_cons.
    apply andb_true_iff in Ha. destruct Ha as [H2 Ha]. rewrite H2. simpl.
    apply IH; [lia | assumption..].
Qed.

End Runes.

Lemma isSpace2_lead (b0 b1 : ascii) :
  strings.isSpace2 b0 b1 = true -> strings.isSpace b0 = false.
Proof.
  intros H. destruct b0 as [[] [] [] [] [] [] [] []];
    first [reflexivity | vm_compute in H; discriminate].
Qed.

Lemma isSpace3_lead (b0 b1 b2 : ascii) :
  strings.isSpace3 b0 b1 b2 = true ->
  strings.isSpace b0 = false /\ forall b, strings.isSpace2 b0 b = false.
Proof.
  intros H. destruct b0 as [[] [] [] [] [] [] [] []];
    first [split; [reflexivity | intros b; reflexivity]
          | vm_compute in H; discriminate].
Qed.

(** Bytes that are white-space runes when read from the right are
    white-space runes when read from the left. *)
Lemma blankRunes_rev (n : nat) : forall u : list ascii,
  (length u <= n)%nat ->
  blankRunes (fun b1 b0 => strings.isSpace2 b0 b1)
             (fun b2 b1 b0 => strings.isSpace3 b0 b1 b2) u = true ->
  blankRunes strings.isSpace2 strings.isSpace3 (rev u) = true.
Proof.
  induction n as [|n IH]; intros u Hlen Hu.
  - destruct u; [reflexivity | simpl in Hlen; lia].
  - destruct u as [|c0 r0]; [reflexivity|].
    rewrite blankRunes_cons in Hu. simpl in Hlen.
    destruct (strings.isSpace c0) eqn:H0.
    { simpl. apply (blankRunes_app _ _ (length (rev r0))); [lia | apply IH; [lia|exact Hu] |].
      rewrite blankRunes_cons, H0. reflexivity. }
    destruct r0 as [|c1 r1]; [discriminate|]. simpl in Hlen.
    destruct (strings.isSpace2 c1 c0) eqn:H1.
    { simpl. rewrite <- app_assoc.
      apply (blankRunes_app _ _ (length (rev r1))); [lia | apply IH; [lia|exact Hu] |].
      cbn [app]. rewrite blankRunes_cons, (isSpace2_lead c1 c0 H1), H1. reflexivity. }
    destruct r1 as [|c2 r2]; [discriminate|]. simpl in Hlen.
    apply andb_true_iff in Hu. destruct Hu as [H2 Hu].
    destruct (isSpace3_lead c2 c1 c0 H2) as [Hlead Hnot2].
    simpl. rewrite <- !app_assoc.
    apply (blankRunes_app _ _ (length (rev r2))); [lia | apply IH; [lia|exact Hu] |].
    cbn [app]. rewrite blankRunes_cons, Hlead, (Hnot2 c1), H2. reflexivity.
Qed.

Lemma string_of_list_ascii_empty (l : list ascii) :
  string_of_list_ascii l = "" <-> l = [].
Proof. destruct l; simpl; split; (reflexivity || discriminate). Qed.

Lemma TrimSpace_empty (s : string) :
  String.eqb (strings.TrimSpace s) "" = blank s.
Proof.
  unfold strings.TrimSpace, strings.TrimRightSpace, strings.TrimLeftSpace, blank.
  rewrite list_ascii_of_string_of_list_ascii.
  set (bs := list_ascii_of_string s).
  destruct (blankRunes strings.isSpace2 strings.isSpace3 bs) eqn:Hb.
  - apply String.eqb_eq, string_of_list_ascii_empty.
    apply (trimRunes_nil_blank _ _ (length bs)) in Hb; [|lia].
    unfold strings.trimLeft. rewrite Hb. reflexivity.
  - apply String.eqb_neq. intros Hempty. apply string_of_list_ascii_empty in Hempty.
    unfold strings.trimRight in Hempty.
    set (t := strings.trimLeft bs) in Hempty.
    assert (Hrev : strings.trimRunes (fun b1 b0 => strings.isSpace2 b0 b1)
                     (fun b2 b1 b0 => strings.isSpace3 b0 b1 b2) (rev t) = []).
    { apply (f_equal (@rev ascii)) in Hempty. rewrite rev_involutive in Hempty.
      exact Hempty. }
    apply (trimRunes_nil_blank _ _ (length (rev t))) in Hrev; [|lia].
    apply (blankRunes_rev (length (rev t))) in Hrev; [|lia].
    rewrite rev_involutive in Hrev.
    apply (trimRunes_nil_blank _ _ (length t)) in Hrev; [|lia].
    unfold t, strings.trimLeft in Hrev.
    rewrite (trimRunes_idem _ _ (length bs)) in Hrev by lia.
    apply (trimRunes_nil_blank _ _ (length bs)) in Hrev; [|lia].
    congruence.
Qed.

Example TrimSpace_unicode :
  strings.TrimSpace nbsp = "" /\ strings.TrimSpace emSpaced = ""
  /\ strings.TrimSpace loneA0 = loneA0 /\ strings.TrimSpace paddedWord = "up"
  /\ strings.TrimSpace "  echo hi  " = "echo hi".
Proof. vm_compute. repeat split; reflexivity. Qed.

(** X7. [Validate] accepts a job exactly when its ID, target host, target
    user, command and checksum are not empty and neither the username nor
    the password of its credentials consists of white space only. *)
Theorem validate_accepts_exactly_complete_jobs (j : JobDefinition) :
  Validate j = None <->
  ID j <> "" /\ TargetHost j <> "" /\ TargetUser j <> "" /\ Command j <> ""
  /\ Checksum j <> ""
  /\ blank (Username (Credentials j)) = false
  /\ blank (Password (Credentials j)) = false.
Proof.
  unfold Validate, CredentialBundle_Validate. rewrite !TrimSpace_empty.
  destruct (String.eqb_spec (ID j) "") as [H1|H1];
    [split; [discriminate | tauto]|].
  destruct (String.eqb_spec (TargetHost j) "") as [H2|H2];
    [split; [discriminate | tauto]|].
  destruct (String.eqb_spec (TargetUser j) "") as [H3|H3];
    [split; [discriminate | tauto]|].
  destruct (String.eqb_spec (Command j) "") as [H4|H4];
    [split; [discriminate | tauto]|].
  destruct (String.eqb_spec (Checksum j) "") as [H5|H5];
    [split; [discriminate | tauto]|].
  destruct (blank (Username (Credentials j)));
    [split; [discriminate | intros (_ & _ & _ & _ & _ & H & _); discriminate]|].
  destruct (blank (Password (Credentials j)));
    [split; [discriminate | intros (_ & _ & _ & _ & _ & _ & H); discriminate]|].
  split; [intros _; repeat split; assumption | reflexivity].
Qed.

End ValidationProperties.

(** ** The digest of a command *)

Section DigestProperties.

Lemma round_length (st : list Z) (kw : Z * Z) :
  length (sha256.round st kw) = length st.
Proof.
  unfold sha256.round.
  destruct st as [|a [|b [|c [|d [|e [|f [|g [|h [|i rest]]]]]]]]]; reflexivity.
Qed.

Lemma rounds_length (kws : list (Z * Z)) : forall st : list Z,
  length (fold_left sha256.round kws st) = length st.
Proof.
  induction kws as [|kw rest IH]; intros st; simpl; [reflexivity|].
  rewrite IH. apply round_length.
Qed.

Lemma compress_length (h block : list Z) :
  length (sha256.compress h block) = length h.
Proof.
  unfold sha256.compress.
  rewrite length_map, length_combine, rounds_length. lia.
Qed.

Lemma blocks_length (fuel : nat) : forall h ws : list Z,
  length (sha256.blocks fuel h ws) = length h.
Proof.
  induction fuel as [|fuel IH]; intros h ws.
  - destruct ws; reflexivity.
  - destruct ws as [|w ws']; [reflexivity|].
    cbn [sha256.blocks]. rewrite IH. apply compress_length.
Qed.

Lemma be_bytes_range (n : nat) (x b : Z) :
  In b (sha256.be_bytes n x) -> 0 <= b < 256.
Proof.
  induction n as [|n IH]; simpl; [tauto|].
  intros [<-|Hin]; [|exact (IH Hin)].
  change 255 with (Z.ones 8). rewrite Z.land_ones by lia.
  apply Z.mod_pos_bound. lia.
Qed.

Lemma be_bytes_length (n : nat) (x : Z) : length (sha256.be_bytes n x) = n.
Proof. induction n as [|n IH]; simpl; [reflexivity | rewrite IH; reflexivity]. Qed.

Lemma Sum256_length (data : string) : length (sha256.Sum256 data) = 32%nat.
Proof.
  unfold sha256.Sum256.
  set (ws := sha256.words _ _).
  pose proof (blocks_length (length ws) sha256.H0 ws) as Hlen.
  change (length sha256.H0) with 8%nat in Hlen.
  destruct (sha256.blocks (length ws) sha256.H0 ws)
    as [|a [|b [|c [|d [|e [|f [|g [|h [|i rest]]]]]]]]]; try discriminate.
  cbn [flat_map]. rewrite !length_app, !be_bytes_length. reflexivity.
Qed.

Lemma Sum256_range (data : string) (b : Z) :
  In b (sha256.Sum256 data) -> 0 <= b < 256.
Proof.
  unfold sha256.Sum256. intros Hin. apply in_flat_map in Hin.
  destruct Hin as (x & _ & Hin). exact (be_bytes_range 4 x b Hin).
Qed.

Lemma digit_of_nibble (v : Z) :
  0 <= v < 16 ->
  exists c, hex.digit v = String c EmptyString
            /\ lowerHex (String c EmptyString) = true.
Proof.
  intros Hv.
  assert (Hcases : v = 0 \/ v = 1 \/ v = 2 \/ v = 3 \/ v = 4 \/ v = 5 \/ v = 6
                   \/ v = 7 \/ v = 8 \/ v = 9 \/ v = 10 \/ v = 11 \/ v = 12
                   \/ v = 13 \/ v = 14 \/ v = 15) by lia.
  repeat (destruct Hcases as [->|Hcases];
          [eexists; split; vm_compute; reflexivity|]).
  subst v. eexists; split; vm_compute; reflexivity.
Qed.

Lemma lowerHex_app (a b : string) :
  lowerHex a = true -> lowerHex b = true -> lowerHex (a +:+ b) = true.
Proof.
  intros Ha Hb. induction a as [|c a IH]; [exact Hb|].
  rewrite string_app_cons. cbn [lowerHex] in *.
  destruct (String.index 0 (String c "") hex.hextable); [auto | discriminate].
Qed.

Lemma EncodeToString_shape (src : list Z) :
  (forall b, In b src -> 0 <= b < 256) ->
  String.length (hex.EncodeToString src) = (2 * length src)%nat
  /\ lowerHex (hex.EncodeToString src) = true.
Proof.
  induction src as [|b rest IH]; intros Hrange; [split; reflexivity|].
  destruct IH as [IHlen IHhex]; [intros x Hx; apply Hrange; right; exact Hx|].
  assert (Hb : 0 <= b < 256) by (apply Hrange; left; reflexivity).
  destruct (digit_of_nibble (Z.shiftr b 4)) as (hi & Hhi & Hhihex).
  { rewrite Z.shiftr_div_pow2 by lia. change (2 ^ 4) with 16.
    split; [apply Z.div_pos; lia | apply Z.div_lt_upper_bound; lia]. }
  destruct (digit_of_nibble (Z.land b 15)) as (lo & Hlo & Hlohex).
  { change 15 with (Z.ones 4). rewrite Z.land_ones by lia.
    apply Z.mod_pos_bound. lia. }
  cbn [hex.EncodeToString]. rewrite Hhi, Hlo. split.
  - rewrite !string_length_app, IHlen. simpl. lia.
  - apply lowerHex_app; [exact Hhihex|]. apply lowerHex_app; assumption.
Qed.

(** X8. The checksum the client computes for a command is always 64 bytes
    long and made of the digits [0-9a-f] only; in particular it is never
    empty, whatever the command. *)
Theorem ensureChecksum_is_64_lowercase_hex_digits (command : string) :
  String.length (ensureChecksum command) = 64%nat
  /\ lowerHex (ensureChecksum command) = true
  /\ ensureChecksum command <> "".
Proof.
  unfold ensureChecksum.
  destruct (EncodeToString_shape (sha256.Sum256 command) (Sum256_range command))
    as [Hlen Hhex].
  rewrite Sum256_length in Hlen. simpl in Hlen.
  split; [exact Hlen|]. split; [exact Hhex|].
  intros Hempty. rewrite Hempty in Hlen. discriminate.
Qed.

End DigestProperties.

(** ** The executor: what reaches the network *)

Section ExecutorTraces.
Import jobs executor.

Implicit Types (env : Env) (e : SSHExecutor) (job : JobDefinition)
  (creds : SSHCredentials) (w : World).

(** X9. [validateJob] accepts a job exactly when [Validate] accepts it, its
    command is in the allow-list or the allow-list is empty, and its
    checksum is the digest the client computes for its command. *)
Theorem validateJob_accepts_exactly e job :
  validateJob e job = None <->
  Validate job = None
  /\ (size (AllowedCommands e) = 0%nat \/ Command job ∈ AllowedCommands e)
  /\ Checksum job = ensureChecksum (Command job).
Proof.
  unfold validateJob, ensureChecksum.
  destruct (Validate job) as [verr|]; [split; [discriminate | intros [H _]; discriminate]|].
  destruct (size (AllowedCommands e)) as [|n] eqn:Hsize; simpl.
  - destruct (String.eqb_spec (hex.EncodeToString (sha256.Sum256 (Command job)))
                              (Checksum job)) as [Heq|Hne]; simpl.
    + split; [intros _; auto | reflexivity].
    + split; [discriminate | intros (_ & _ & H); congruence].
  - destruct (bool_decide_reflect (Command job ∈ AllowedCommands e)) as [Hin|Hnotin];
      simpl.
    + destruct (String.eqb_spec (hex.EncodeToString (sha256.Sum256 (Command job)))
                                (Checksum job)) as [Heq|Hne]; simpl.
      * split; [intros _; auto | reflexivity].
      * split; [discriminate | intros (_ & _ & H); congruence].
    + split; [discriminate|]. intros (_ & [H|H] & _); [discriminate | contradiction].
Qed.

Lemma validateJob_error_is_plain e job err :
  validateJob e job = Some err -> errorText err <> "" /\ asExitError err = None.
Proof.
  unfold validateJob, Validate, CredentialBundle_Validate.
  repeat match goal with
         | |- context [if ?b then _ else _] => destruct b
         end;
    intros [= <-]; split; try reflexivity; simpl;
    rewrite ?string_app_cons; discriminate.
Qed.

Lemma validateJob_refuses_outside_allowlist e job :
  (0 < size (AllowedCommands e))%nat ->
  Command job ∉ AllowedCommands e ->
  exists err, validateJob e job = Some err.
Proof.
  intros Hsize Hnotin. unfold validateJob.
  destruct (Validate job); [eauto|].
  apply Nat.ltb_lt in Hsize. rewrite Hsize.
  rewrite bool_decide_eq_false_2 by exact Hnotin. simpl. eauto.
Qed.

(** X10. A job that fails validation, for whatever reason, is answered
    without any call to the network, with a result that names the job, has
    the failed status, the exit code -1 and the text of the validation error,
    which is not empty. *)
Theorem validation_failure_result_is_well_formed env e job creds w err :
  validateJob e job = Some err ->
  snd (fst (Execute env e job creds w)) = Some err
  /\ JobID (fst (fst (Execute env e job creds w))) = ID job
  /\ ResultStatus (fst (fst (Execute env e job creds w))) = StatusFailed
  /\ ExitCode (fst (fst (Execute env e job creds w))) = -1
  /\ Error (fst (fst (Execute env e job creds w))) = errorText err
  /\ Error (fst (fst (Execute env e job creds w))) <> ""
  /\ ResultMetadata (fst (fst (Execute env e job creds w))) = Metadata job
  /\ trace (snd (Execute env e job creds w)) = trace w.
Proof.
  intros Hv. destruct (validateJob_error_is_plain e job err Hv) as [Htext Hexit].
  rewrite (execute_validation_failure env e job creds w err Hv). simpl.
  rewrite Hexit. repeat split; auto.
Qed.

Lemma validation_failure_result_is_well_formed_witness :
  ExitCode (fst (fst (Execute (sampleEnv None) sampleExecutor tamperedJob
                        sampleCreds startWorld))) = -1.
Proof.
  apply (validation_failure_result_is_well_formed (sampleEnv None) sampleExecutor
           tamperedJob sampleCreds startWorld (errors.New "checksum mismatch")).
  vm_compute. reflexivity.
Defined.

(** X11. With a non-empty allow-list, a job whose command is not in it is
    refused before any call to the network: [Execute] returns an error and a
    failed result with exit code -1 and a non-empty error text. *)
Theorem command_outside_allowlist_is_refused env e job creds w :
  (0 < size (AllowedCommands e))%nat ->
  Command job ∉ AllowedCommands e ->
  snd (fst (Execute env e job creds w)) <> None
  /\ ResultStatus (fst (fst (Execute env e job creds w))) = StatusFailed
  /\ ExitCode (fst (fst (Execute env e job creds w))) = -1
  /\ Error (fst (fst (Execute env e job creds w))) <> ""
  /\ trace (snd (Execute env e job creds w)) = trace w.
Proof.
  intros Hsize Hnotin.
  destruct (validateJob_refuses_outside_allowlist e job Hsize Hnotin) as [err Hv].
  destruct (validateJob_error_is_plain e job err Hv) as [Htext Hexit].
  rewrite (execute_validation_failure env e job creds w err Hv). simpl.
  rewrite Hexit. repeat split; auto.
Qed.

Lemma command_outside_allowlist_is_refused_witness :
  trace (snd (Execute (sampleEnv None)
                {| AllowedCommands := {["uptime"]}; DialTimeout := 10 * Second |}
                sampleJob sampleCreds startWorld)) = trace startWorld.
Proof.
  apply (command_outside_allowlist_is_refused (sampleEnv None)
           {| AllowedCommands := {["uptime"]}; DialTimeout := 10 * Second |}
           sampleJob sampleCreds startWorld).
  - vm_compute. lia.
  - intros H. simpl in H. apply elem_of_singleton in H. discriminate.
Defined.

(** The calls [Execute] adds to the trace. *)
Lemma execute_events env e job creds w :
  exists evs,
    trace (snd (Execute env e job creds w)) = trace w ++ evs
    /\ (forall c, EvRun c ∈ evs ->
          c = Command job /\ validateJob e job = None /\ dial env = None
          /\ makeHostKeyCallback (Fingerprint creds) (Address creds)
               (hostKeyFingerprint env) = None
          /\ authenticate env = None /\ newSession env = None)
    /\ (makeHostKeyCallback (Fingerprint creds) (Address creds)
          (hostKeyFingerprint env) <> None ->
        Forall (fun ev => ev = EvDial (Address creds)
                          \/ ev = EvHandshake (Address creds) (Username creds)) evs
        /\ exists err,
             snd (fst (Execute env e job creds w)) = Some err
             /\ JobID (fst (fst (Execute env e job creds w))) = ID job
             /\ ResultStatus (fst (fst (Execute env e job creds w))) = StatusFailed
             /\ ExitCode (fst (fst (Execute env e job creds w))) = -1
             /\ Error (fst (fst (Execute env e job creds w))) = errorText err)
    /\ (validateJob e job = None ->
        Address creds <> "" -> Username creds <> "" -> Password creds <> "" ->
        EvDial (Address creds) ∈ evs).
Proof.
  destruct (validateJob e job) as [verr|] eqn:Hv.
  { exists []. rewrite (execute_validation_failure env e job creds w verr Hv). simpl.
    rewrite app_nil_r. split; [reflexivity|]. split; [intros c Hin; inversion Hin|].
    split; [|discriminate]. intros _. split; [constructor|].
    exists verr. rewrite (proj2 (validateJob_error_is_plain e job verr Hv)).
    repeat split; reflexivity. }
  unfold Execute, buildResult, bind, nowUTC, now, ret, emit. rewrite Hv. simpl.
  destruct (newClient_events env e creds {| ticks := S (ticks w); trace := trace w |})
    as (cevs & Hw1 & Hcevs & Hclient & Hdial).
  destruct (newClient env e creds {| ticks := S (ticks w); trace := trace w |})
    as [c w1]. simpl in Hw1, Hclient. subst w1. simpl in Hcevs, Hdial.
  destruct c as [cerr|]; simpl.
  { exists cevs. split; [reflexivity|]. split.
    - intros c Hin. exfalso. rewrite Forall_forall in Hcevs.
      destruct (Hcevs _ Hin) as [H|H]; discriminate.
    - split; [|intros _; exact Hdial]. intros _. split; [exact Hcevs|].
      exists cerr. rewrite Hclient. repeat split; reflexivity. }
  destruct Hclient as (Hd & Hkey & Hauth).
  assert (Hnorun : forall c, EvRun c ∈ cevs -> False).
  { intros c Hin. rewrite Forall_forall in Hcevs.
    destruct (Hcevs _ Hin) as [H|H]; discriminate. }
  destruct (newSession env) as [serr|] eqn:Hsess; simpl.
  { exists (cevs ++ [EvNewSession; EvClientClose]).
    split; [rewrite <- !app_assoc; reflexivity|]. split.
    - intros c Hin. exfalso. apply elem_of_app in Hin. destruct Hin as [Hin|Hin];
        [exact (Hnorun c Hin)|].
      repeat (apply elem_of_cons in Hin; destruct Hin as [Hin|Hin];
              [discriminate|]). inversion Hin.
    - split; [intros H; contradiction|].
      intros _ Ha Hu Hp. apply elem_of_app. left. auto. }
  destruct (AllowTTY job); simpl.
  - destruct (requestPty env) as [perr|]; simpl.
    + exists (cevs ++ [EvNewSession; EvRequestPty; EvSessionClose; EvClientClose]).
      split; [rewrite <- !app_assoc; reflexivity|]. split.
      * intros c Hin. exfalso. apply elem_of_app in Hin. destruct Hin as [Hin|Hin];
          [exact (Hnorun c Hin)|].
        repeat (apply elem_of_cons in Hin; destruct Hin as [Hin|Hin];
                [discriminate|]). inversion Hin.
      * split; [intros H; contradiction|].
        intros _ Ha Hu Hp. apply elem_of_app. left. auto.
    + destruct (sessionRun env) as [cx stdout stderr|rerr stdout stderr]; simpl;
        exists (cevs ++ [EvNewSession; EvRequestPty; EvRun (Command job);
                         EvSessionClose; EvClientClose]);
        (split; [rewrite <- !app_assoc; reflexivity|]); (split;
        [ intros c Hin; apply elem_of_app in Hin; destruct Hin as [Hin|Hin];
          [destruct (Hnorun c Hin)|];
          repeat (apply elem_of_cons in Hin; destruct Hin as [Hin|Hin];
                  [try discriminate|]); [|inversion Hin];
          injection Hin as ->; repeat split; auto
        | split; [intros H; contradiction|];
          intros _ Ha Hu Hp; apply elem_of_app; left; auto ]).
  - destruct (sessionRun env) as [cx stdout stderr|rerr stdout stderr]; simpl;
      exists (cevs ++ [EvNewSession; EvRun (Command job);
                       EvSessionClose; EvClientClose]);
      (split; [rewrite <- !app_assoc; reflexivity|]); (split;
      [ intros c Hin; apply elem_of_app in Hin; destruct Hin as [Hin|Hin];
        [destruct (Hnorun c Hin)|];
        repeat (apply elem_of_cons in Hin; destruct Hin as [Hin|Hin];
                [try discriminate|]); [|inversion Hin];
        injection Hin as ->; repeat split; auto
      | split; [intros H; contradiction|];
        intros _ Ha Hu Hp; apply elem_of_app; left; auto ]).
Qed.

Lemma pinned_key_mismatch_is_refused (expected hostname fingerprint : string) :
  expected <> "" -> fingerprint <> expected ->
  makeHostKeyCallback expected hostname fingerprint <> None.
Proof.
  intros Hpinned Hdiff. unfold makeHostKeyCallback.
  apply String.eqb_neq in Hpinned, Hdiff. rewrite Hpinned, Hdiff. discriminate.
Qed.

(** X12. [Execute] runs a command on the remote host only when the job has
    passed validation, the dial succeeded, the host key was accepted, the
    authentication succeeded and the session was opened, and the command it
    runs is the command of the job, unchanged. *)
Theorem command_runs_only_after_validation_and_handshake env e job creds w c :
  EvRun c ∈ trace (snd (Execute env e job creds w)) ->
  EvRun c ∈ trace w
  \/ (c = Command job /\ validateJob e job = None /\ dial env = None
      /\ makeHostKeyCallback (Fingerprint creds) (Address creds)
           (hostKeyFingerprint env) = None
      /\ authenticate env = None /\ newSession env = None).
Proof.
  destruct (execute_events env e job creds w) as (evs & Htrace & Hrun & _).
  rewrite Htrace. intros Hin. apply elem_of_app in Hin.
  destruct Hin as [Hin|Hin]; [left; exact Hin | right; exact (Hrun c Hin)].
Qed.

Lemma command_runs_only_after_validation_and_handshake_witness :
  EvRun "echo hi" ∈ trace startWorld
  \/ ("echo hi" = Command sampleJob
      /\ validateJob sampleExecutor sampleJob = None
      /\ dial (sampleEnv None) = None
      /\ makeHostKeyCallback (Fingerprint sampleCreds) (Address sampleCreds)
           (hostKeyFingerprint (sampleEnv None)) = None
      /\ authenticate (sampleEnv None) = None /\ newSession (sampleEnv None) = None).
Proof.
  apply (command_runs_only_after_validation_and_handshake (sampleEnv None)
           sampleExecutor sampleJob sampleCreds startWorld "echo hi").
  vm_compute. do 3 right. left.
Defined.

(** X13. When a fingerprint is pinned for the host and the key the host
    presents has another fingerprint, [Execute] fails with a result that
    names the job, has the failed status and the exit code -1, and it goes no
    further than the dial and the handshake: no session is opened and no
    command is run. *)
Theorem pinned_host_key_mismatch_stops_at_handshake env e job creds w :
  Fingerprint creds <> "" ->
  hostKeyFingerprint env <> Fingerprint creds ->
  (exists err,
      snd (fst (Execute env e job creds w)) = Some err
      /\ JobID (fst (fst (Execute env e job creds w))) = ID job
      /\ ResultStatus (fst (fst (Execute env e job creds w))) = StatusFailed
      /\ ExitCode (fst (fst (Execute env e job creds w))) = -1
      /\ Error (fst (fst (Execute env e job creds w))) = errorText err)
  /\ forall ev, ev ∈ trace (snd (Execute env e job creds w)) ->
       ev ∈ trace w \/ ev = EvDial (Address creds)
       \/ ev = EvHandshake (Address creds) (Username creds).
Proof.
  intros Hpinned Hdiff.
  destruct (execute_events env e job creds w) as (evs & Htrace & _ & Hkey & _).
  destruct (Hkey (pinned_key_mismatch_is_refused _ (Address creds) _ Hpinned Hdiff))
    as [Hevs Herr].
  split; [exact Herr|].
  intros ev. rewrite Htrace. intros Hin. apply elem_of_app in Hin.
  destruct Hin as [Hin|Hin]; [left; exact Hin | right].
  rewrite Forall_forall in Hevs. exact (Hevs ev Hin).
Qed.


Lemma pinned_host_key_mismatch_stops_at_handshake_witness :
  exists err,
    snd (fst (Execute (sampleEnv None) sampleExecutor sampleJob pinnedCreds
                startWorld)) = Some err
    /\ JobID (fst (fst (Execute (sampleEnv None) sampleExecutor sampleJob
                          pinnedCreds startWorld))) = ID sampleJob
    /\ ResultStatus (fst (fst (Execute (sampleEnv None) sampleExecutor sampleJob
                                 pinnedCreds startWorld))) = StatusFailed
    /\ ExitCode (fst (fst (Execute (sampleEnv None) sampleExecutor sampleJob
                             pinnedCreds startWorld))) = -1
    /\ Error (fst (fst (Execute (sampleEnv None) sampleExecutor sampleJob
                          pinnedCreds startWorld))) = errorText err.
Proof.
  apply (pinned_host_key_mismatch_stops_at_handshake (sampleEnv None) sampleExecutor
           sampleJob pinnedCreds startWorld).
  - discriminate.
  - discriminate.
Defined.

End ExecutorTraces.

(** ** The engine command *)

Section EngineProperties.
Import jobs executor.

Lemma int64_small (x : Z) : - 2 ^ 63 <= x < 2 ^ 63 -> engine.int64 x = x.
Proof. intros Hx. unfold engine.int64. rewrite Z.mod_small; lia. Qed.

(** X14. The two conversions of configured seconds give the fallback (five
    seconds for the poll interval) for zero and negative values and the
    exact number of nanoseconds, a positive duration, up to 9223372036
    seconds; from there up to 18446744073 seconds the 64-bit product wraps
    and the duration is negative. *)
Theorem configured_seconds_to_duration (seconds : Z) (fallback : Duration) :
  (seconds <= 0 ->
   engine.timeoutOrDefault seconds fallback = fallback
   /\ engine.pollInterval seconds = 5 * Second)
  /\ (0 < seconds <= 9223372036 ->
      engine.timeoutOrDefault seconds fallback = seconds * Second
      /\ engine.pollInterval seconds = seconds * Second
      /\ 0 < engine.pollInterval seconds)
  /\ (9223372036 < seconds <= 18446744073 ->
      engine.timeoutOrDefault seconds fallback < 0
      /\ engine.pollInterval seconds < 0).
Proof.
  unfold engine.timeoutOrDefault, engine.pollInterval, Second.
  split; [|split].
  - intros Hle. apply Z.leb_le in Hle. rewrite Hle. split; reflexivity.
  - intros Hrange. assert (Hpos : (seconds <=? 0) = false) by (apply Z.leb_gt; lia).
    rewrite Hpos, int64_small by lia. lia.
  - intros Hrange. assert (Hpos : (seconds <=? 0) = false) by (apply Z.leb_gt; lia).
    rewrite Hpos. unfold engine.int64.
    assert (Hwrap : (seconds * 1000000000 + 2 ^ 63) mod 2 ^ 64
                    = seconds * 1000000000 + 2 ^ 63 - 2 ^ 64).
    { symmetry. apply Z.mod_unique with (q := 1); lia. }
    rewrite Hwrap. lia.
Qed.

Lemma configured_seconds_to_duration_witness :
  engine.timeoutOrDefault 0 (2 * 60 * Second) = 2 * 60 * Second
  /\ engine.pollInterval 30 = 30 * Second
  /\ engine.pollInterval 9223372037 < 0.
Proof.
  destruct (configured_seconds_to_duration 0 (2 * 60 * Second)) as (Hzero & _ & _).
  destruct (configured_seconds_to_duration 30 0) as (_ & Hin & _).
  destruct (configured_seconds_to_duration 9223372037 0) as (_ & _ & Hover).
  split; [apply Hzero; lia|]. split; [apply Hin; lia | apply Hover; lia].
Defined.

Lemma allowlist_fold (commands : list string) : forall (acc : gset string) (c : string),
  c ∈ fold_left
        (fun (allow : gset string) (cmd : string) =>
           if String.eqb (strings.TrimSpace cmd) "" then allow else {[cmd]} ∪ allow)
        commands acc
  <-> c ∈ acc \/ (c ∈ commands /\ blank c = false).
Proof.
  induction commands as [|cmd rest IH]; intros acc c; simpl.
  - split; [auto | intros [H|[H _]]; [exact H | inversion H]].
  - rewrite IH, TrimSpace_empty, elem_of_cons.
    destruct (blank cmd) eqn:Hb.
    + split; [tauto|]. intros [H|[[->|H] Hc]]; [tauto | congruence | tauto].
    + rewrite elem_of_union, elem_of_singleton.
      split; [intros [[->|H]|H]; tauto | tauto].
Qed.

Lemma buildAllowlist_membership (commands : list string) (c : string) :
  c ∈ engine.buildAllowlist commands <-> c ∈ commands /\ blank c = false.
Proof.
  unfold engine.buildAllowlist. destruct commands as [|cmd rest].
  - simpl. split; [intros H; apply not_elem_of_empty in H; contradiction|].
    intros [H _]. inversion H.
  - cbn [length Nat.eqb]. rewrite allowlist_fold.
    split; [intros [H|H]; [apply not_elem_of_empty in H; contradiction | exact H]
           | auto].
Qed.

(** X15. The allow-list built from the configuration holds exactly the
    configured commands that are not blank: empty entries and entries of
    white space only are dropped, every other entry is kept as written. *)
Theorem buildAllowlist_keeps_nonblank_commands (commands : list string) (c : string) :
  c ∈ engine.buildAllowlist commands <-> c ∈ commands /\ blank c = false.
Proof.
  unfold engine.buildAllowlist. destruct commands as [|cmd rest].
  - simpl. split; [intros H; apply not_elem_of_empty in H; contradiction|].
    intros [H _]. inversion H.
  - cbn [length Nat.eqb]. rewrite allowlist_fold.
    split; [intros [H|H]; [apply not_elem_of_empty in H; contradiction | exact H]
           | auto].
Qed.

(** X16. A configured allow-list whose entries are all blank restricts
    nothing: the executor built from it validates every job as the executor
    without an allow-list does. *)
Theorem blank_allowlist_restricts_nothing (commands : list string)
    (d : Duration) (job : JobDefinition) :
  (forall c, c ∈ commands -> blank c = true) ->
  validateJob {| AllowedCommands := engine.buildAllowlist commands; DialTimeout := d |}
              job
  = validateJob {| AllowedCommands := ∅; DialTimeout := d |} job.
Proof.
  intros Hblank.
  assert (Hempty : engine.buildAllowlist commands = ∅).
  { apply elem_of_equiv_empty_L. intros c Hin.
    unfold engine.buildAllowlist in Hin. destruct commands as [|cmd rest].
    - simpl in Hin. apply not_elem_of_empty in Hin. exact Hin.
    - cbn [length Nat.eqb] in Hin. apply allowlist_fold in Hin.
      destruct Hin as [Hin|[Hin Hc]]; [apply not_elem_of_empty in Hin; exact Hin|].
      rewrite (Hblank c Hin) in Hc. discriminate. }
  rewrite Hempty. reflexivity.
Qed.

Lemma blank_allowlist_restricts_nothing_witness :
  validateJob {| AllowedCommands := engine.buildAllowlist [nbsp; emSpaced; ""];
                 DialTimeout := 10 * Second |} sampleJob
  = validateJob {| AllowedCommands := ∅; DialTimeout := 10 * Second |} sampleJob.
Proof.
  apply (blank_allowlist_restricts_nothing [nbsp; emSpaced; ""] (10 * Second)
           sampleJob).
  intros c Hin. apply elem_of_cons in Hin. destruct Hin as [->|Hin]; [reflexivity|].
  apply elem_of_cons in Hin. destruct Hin as [->|Hin]; [reflexivity|].
  apply list_elem_of_singleton in Hin. subst c. reflexivity.
Defined.

Example buildAllowlist_drops_unicode_blanks :
  engine.buildAllowlist [nbsp; "uptime"; emSpaced; loneA0] = {["uptime"; loneA0]}.
Proof.
  apply set_eq. intros c. rewrite buildAllowlist_membership.
  rewrite !elem_of_cons, elem_of_union, !elem_of_singleton.
  split.
  - intros [[->|[->|[->|[->|H]]]] Hb]; try (vm_compute in Hb; discriminate); auto.
    inversion H.
  - intros [->| ->]; (split; [auto | reflexivity]).
Qed.

Lemma validateJob_None_TargetUser e (job : JobDefinition) :
  validateJob e job = None -> TargetUser job <> "".
Proof.
  unfold validateJob, Validate.
  destruct (String.eqb (ID job) ""); [discriminate|].
  destruct (String.eqb (TargetHost job) ""); [discriminate|].
  destruct (String.eqb_spec (TargetUser job) "") as [Hu|Hu]; [discriminate|].
  intros _. exact Hu.
Qed.

Lemma hostPort_not_empty (host : string) (port : Z) : engine.hostPort host port <> "".
Proof.
  unfold engine.hostPort. intros Heq. apply (f_equal String.length) in Heq.
  rewrite string_length_app, string_length_app in Heq. simpl in Heq. lia.
Qed.

(** X17. For a job that passes validation, with a password configured, the
    credentials the engine builds always take [Execute] as far as the dial,
    and the address dialled is the target host with the job's port when that
    is positive and with port 22 otherwise. *)
Theorem engine_credentials_reach_the_dial (env : Env) (e : SSHExecutor)
    (job : JobDefinition) (cfg : engine.ExecutionConfig) (key : list Z) (w : World) :
  validateJob e job = None ->
  engine.Password cfg <> "" ->
  EvDial (engine.hostPort (TargetHost job) (engine.effectivePort (TargetPort job)))
    ∈ trace (snd (Execute env e job (engine.buildCredentials job cfg key) w))
  /\ 0 < engine.effectivePort (TargetPort job)
  /\ (0 < TargetPort job -> engine.effectivePort (TargetPort job) = TargetPort job)
  /\ (TargetPort job <= 0 -> engine.effectivePort (TargetPort job) = 22).
Proof.
  intros Hv Hpw. split.
  - destruct (execute_events env e job (engine.buildCredentials job cfg key) w)
      as (evs & Htrace & _ & _ & Hdial).
    rewrite Htrace. apply elem_of_app. right.
    apply (Hdial Hv); simpl.
    + apply hostPort_not_empty.
    + exact (validateJob_None_TargetUser e job Hv).
    + exact Hpw.
  - unfold engine.effectivePort.
    destruct (Z.leb_spec (TargetPort job) 0); repeat split; lia.
Qed.

Lemma engine_credentials_reach_the_dial_witness :
  EvDial "h:22"
    ∈ trace (snd (Execute (sampleEnv None) sampleExecutor sampleJob
                    (engine.buildCredentials sampleJob sampleConfig []) startWorld)).
Proof.
  apply (engine_credentials_reach_the_dial (sampleEnv None) sampleExecutor sampleJob
           sampleConfig [] startWorld).
  - vm_compute. reflexivity.
  - discriminate.
Defined.

(** X18. The fingerprint table is read under the key the job's port gives.
    For a positive port the key is host and port, and a pin stored there is
    enforced: a host presenting another key gets no session and no command.
    For port zero the key is the bare host: when nothing is stored under the
    bare host, every host key is accepted, whatever is stored under other
    keys. *)
Theorem pin_lookup_follows_job_port (env : Env) (e : SSHExecutor)
    (job : JobDefinition) (cfg : engine.ExecutionConfig) (key : list Z) (w : World) :
  (forall fp,
      0 < TargetPort job ->
      engine.HostKeyFingerprints cfg
        !! engine.hostPort (TargetHost job) (TargetPort job) = Some fp ->
      fp <> "" ->
      hostKeyFingerprint env <> fp ->
      snd (fst (Execute env e job (engine.buildCredentials job cfg key) w)) <> None
      /\ forall c,
           EvRun c ∈ trace (snd (Execute env e job
                                   (engine.buildCredentials job cfg key) w)) ->
           EvRun c ∈ trace w)
  /\ (TargetPort job = 0 ->
      engine.HostKeyFingerprints cfg !! TargetHost job = None ->
      Fingerprint (engine.buildCredentials job cfg key) = ""
      /\ forall hostname presented,
           makeHostKeyCallback (Fingerprint (engine.buildCredentials job cfg key))
             hostname presented = None).
Proof.
  split.
  - intros fp Hport Hpin Hfp Hdiff.
    assert (Hfinger : Fingerprint (engine.buildCredentials job cfg key) = fp).
    { simpl. assert (Hne : (TargetPort job =? 0) = false) by (apply Z.eqb_neq; lia).
      rewrite Hne. simpl. rewrite Hpin. reflexivity. }
    destruct (execute_events env e job (engine.buildCredentials job cfg key) w)
      as (evs & Htrace & _ & Hkey & _).
    destruct Hkey as [Hevs (err & Herr & _)].
    { apply pinned_key_mismatch_is_refused; rewrite Hfinger; assumption. }
    split; [rewrite Herr; discriminate|].
    intros c. rewrite Htrace. intros Hin. apply elem_of_app in Hin.
    destruct Hin as [Hin|Hin]; [exact Hin|]. exfalso.
    rewrite Forall_forall in Hevs. destruct (Hevs _ Hin) as [H|H]; discriminate.
  - intros Hport Hnone.
    assert (Hfinger : Fingerprint (engine.buildCredentials job cfg key) = "").
    { simpl. rewrite Hport. simpl. rewrite Hnone. reflexivity. }
    split; [exact Hfinger|]. intros hostname presented. rewrite Hfinger. reflexivity.
Qed.

Lemma pin_lookup_follows_job_port_witness :
  snd (fst (Execute (sampleEnv None) sampleExecutor sampleJobPort2222
              (engine.buildCredentials sampleJobPort2222 sampleConfig []) startWorld))
  <> None
  /\ Fingerprint (engine.buildCredentials sampleJob sampleConfig []) = "".
Proof.
  destruct (pin_lookup_follows_job_port (sampleEnv None) sampleExecutor
              sampleJobPort2222 sampleConfig [] startWorld) as [Hpinned _].
  destruct (pin_lookup_follows_job_port (sampleEnv None) sampleExecutor
              sampleJob sampleConfig [] startWorld) as [_ Hbare].
  split.
  - apply (Hpinned "SHA256:pinned").
    + simpl. lia.
    + vm_compute. reflexivity.
    + discriminate.
    + discriminate.
  - apply Hbare; [reflexivity | vm_compute; reflexivity].
Defined.

End EngineProperties.

(** ** The transports: what the polling loops return *)

Section TransportLoops.
Import jobs transport.

Variable json_Unmarshal : string -> error + JobDefinition.

Lemma http_pollLoop_valid tr (turns : list (turn http.exchange))
    (job : JobDefinition) (receipt : string) :
  fst (HTTPTransport.pollLoop json_Unmarshal tr turns) = GotJob job receipt ->
  Validate job = None /\ receipt = ID job.
Proof.
  induction turns as [|t rest IH]; simpl; [discriminate|].
  destruct t as [|x]; simpl; [discriminate|].
  destruct x as [err|err|code err|code body]; simpl; try discriminate; [exact IH|].
  destruct (code =? http.StatusNoContent); [exact IH|].
  destruct (code =? http.StatusOK); [|discriminate].
  destruct (json_Unmarshal body) as [err|j]; [discriminate|].
  destruct (Validate j) eqn:Hv; [discriminate|]. simpl.
  intros [= <- <-]. split; [exact Hv | reflexivity].
Qed.

(** X19. Every job the HTTP transport returns has passed [Validate], and
    the receipt returned with it is the job's ID. *)
Theorem http_transport_returns_only_valid_jobs tr
    (turns : list (turn http.exchange)) (job : JobDefinition) (receipt : string) :
  fst (HTTPTransport.NextJob json_Unmarshal tr turns) = GotJob job receipt ->
  Validate job = None /\ receipt = ID job.
Proof.
  unfold HTTPTransport.NextJob.
  destruct (String.eqb (strings.TrimSpace (HTTPTransport.BaseURL tr)) "");
    [discriminate | apply http_pollLoop_valid].
Qed.

Lemma http_pollLoop_waits tr (xs : list http.exchange)
    (rest : list (turn http.exchange)) :
  forallb httpWaits xs = true ->
  HTTPTransport.pollLoop json_Unmarshal tr (List.map Go xs ++ rest)
  = (fst (HTTPTransport.pollLoop json_Unmarshal tr rest),
     flat_map (fun _ => [HTTPTransport.EvGet
                           (HTTPTransport.BaseURL tr +:+ "/v1/queue/next");
                         HTTPTransport.EvSleep (HTTPTransport.sleepInterval tr)])
              xs
     ++ snd (HTTPTransport.pollLoop json_Unmarshal tr rest)).
Proof.
  induction xs as [|x xs IH]; intros Hwait.
  - simpl. destruct (HTTPTransport.pollLoop json_Unmarshal tr rest); reflexivity.
  - simpl in Hwait. apply andb_true_iff in Hwait. destruct Hwait as [Hx Hxs].
    cbn [List.map app HTTPTransport.pollLoop flat_map]. rewrite (IH Hxs).
    destruct x as [err|err|code err|code body]; try discriminate; simpl.
    + reflexivity.
    + simpl in Hx. rewrite Hx. reflexivity.
Qed.

(** X20. While the controller cannot be reached or answers 204, the HTTP
    transport goes on polling: after any number of such exchanges it has
    made one GET and one sleep per exchange, each sleep of a positive
    duration, and it then behaves as it would have without them; a stop
    signal seen at that point ends the loop without another request. *)
Theorem http_transport_polls_through_failures tr (xs : list http.exchange)
    (rest : list (turn http.exchange)) :
  String.eqb (strings.TrimSpace (HTTPTransport.BaseURL tr)) "" = false ->
  forallb httpWaits xs = true ->
  HTTPTransport.NextJob json_Unmarshal tr (List.map Go xs ++ rest)
  = (fst (HTTPTransport.NextJob json_Unmarshal tr rest),
     flat_map (fun _ => [HTTPTransport.EvGet
                           (HTTPTransport.BaseURL tr +:+ "/v1/queue/next");
                         HTTPTransport.EvSleep (HTTPTransport.sleepInterval tr)])
              xs
     ++ snd (HTTPTransport.NextJob json_Unmarshal tr rest))
  /\ 0 < HTTPTransport.sleepInterval tr
  /\ HTTPTransport.NextJob json_Unmarshal tr (Stop :: rest)
     = (Failed (errors.New "polling stopped"), []).
Proof.
  intros Hbase Hwait. unfold HTTPTransport.NextJob. rewrite Hbase.
  split; [apply http_pollLoop_waits, Hwait|]. split; [|reflexivity].
  unfold HTTPTransport.sleepInterval, Second.
  destruct (Z.leb_spec (HTTPTransport.PollInterval tr) 0); lia.
Qed.

End TransportLoops.

Lemma http_transport_returns_only_valid_jobs_witness :
  jobs.Validate sampleJob = None /\ "j1" = jobs.ID sampleJob.
Proof.
  apply (http_transport_returns_only_valid_jobs sampleUnmarshal sampleHTTPTransport
           [transport.Go (http.DoFails (errorString "refused"));
            transport.Go (http.Response 200 "{}")]
           sampleJob "j1").
  vm_compute. reflexivity.
Defined.

Lemma http_transport_polls_through_failures_witness :
  fst (transport.HTTPTransport.NextJob sampleUnmarshal sampleHTTPTransport
         (List.map transport.Go
            [http.DoFails (errorString "refused"); http.Response 204 ""]
          ++ [transport.Stop]))
  = transport.Failed (errors.New "polling stopped").
Proof.
  destruct (http_transport_polls_through_failures sampleUnmarshal sampleHTTPTransport
              [http.DoFails (errorString "refused"); http.Response 204 ""]
              [transport.Stop]) as (Hwaits & _ & _).
  - vm_compute. reflexivity.
  - reflexivity.
  - rewrite Hwaits. vm_compute. reflexivity.
Defined.

Section FilesystemLoops.
Import jobs transport transport.FilesystemTransport.

Variable json_Unmarshal : string -> error + JobDefinition.

Lemma scanInbox_job tr fs (p : string) (job : JobDefinition) :
  scanInbox json_Unmarshal tr fs = (p, Some job, None) ->
  Validate job = None /\ isJobFile p = true.
Proof.
  unfold scanInbox.
  pose proof (walkInbox_selects_job_file (walk fs)) as Hsel.
  destruct (walkInbox (walk fs)) as [selected err]. simpl in Hsel.
  destruct (bool_decide (err <> None) || String.eqb selected "") eqn:Hskip;
    [discriminate|].
  destruct (ReadFile fs selected) as [rerr|fileData]; [discriminate|].
  destruct (json_Unmarshal fileData) as [uerr|j]; [discriminate|].
  destruct (Validate j) eqn:Hv; [discriminate|].
  intros [= <- <-]. split; [exact Hv|].
  apply orb_false_iff in Hskip. destruct Hskip as [_ Hne].
  apply String.eqb_neq in Hne. destruct Hsel as [Hsel|Hsel]; [contradiction | exact Hsel].
Qed.

Lemma scanInbox_outcomes tr fs :
  (exists p job, scanInbox json_Unmarshal tr fs = (p, Some job, None))
  \/ (exists err, scanInbox json_Unmarshal tr fs = ("", None, err)).
Proof.
  unfold scanInbox. destruct (walkInbox (walk fs)) as [selected err].
  destruct (bool_decide (err <> None) || String.eqb selected ""); [eauto|].
  destruct (ReadFile fs selected) as [rerr|fileData]; [eauto|].
  destruct (json_Unmarshal fileData) as [uerr|j]; [eauto|].
  destruct (Validate j); eauto.
Qed.

(** X21. The file-system transport returns a job only after a scan that
    found a job file whose content decodes to a job that passes [Validate];
    it never returns an error of a scan: the only errors it returns are
    that polling was stopped and that no inbox is configured. *)
Theorem filesystem_transport_returns_only_valid_job_files tr
    (turns : list (turn FS)) :
  (forall job p,
      fst (NextJob json_Unmarshal tr turns) = GotJob job p ->
      Validate job = None /\ isJobFile p = true)
  /\ (forall err,
      fst (NextJob json_Unmarshal tr turns) = Failed err ->
      err = errors.New "polling stopped"
      \/ err = errors.New "inbox directory not configured").
Proof.
  unfold NextJob. destruct (String.eqb (InboxDir tr) "").
  { split; [discriminate|]. intros err [= <-]. right. reflexivity. }
  induction turns as [|t rest [IHjob IHerr]]; [split; discriminate|].
  destruct t as [|fs]; [split; [discriminate | intros err [= <-]; left; reflexivity]|].
  cbn [pollLoop].
  destruct (scanInbox_outcomes tr fs) as [(p & j & Hscan)|(serr & Hscan)].
  - rewrite Hscan. simpl. split; [|discriminate].
    intros job p' [= <- <-]. exact (scanInbox_job tr fs p j Hscan).
  - rewrite Hscan. destruct serr; simpl; split; assumption.
Qed.

Lemma walkInbox_first_job_file (pre post : list visit) (v : visit) :
  forallb passedOver pre = true ->
  walkErr v = None -> IsDir v = false -> isJobFile (path v) = true ->
  walkInbox (pre ++ v :: post) = (path v, None).
Proof.
  intros Hpre Herr Hdir Hjob. induction pre as [|u pre IH].
  - simpl. rewrite Herr, Hdir. unfold isJobFile in Hjob.
    apply andb_true_iff in Hjob. destruct Hjob as [H1 H2]. rewrite H1, H2. reflexivity.
  - simpl in Hpre. apply andb_true_iff in Hpre. destruct Hpre as [Hu Hpre].
    cbn [app walkInbox]. unfold passedOver in Hu.
    destruct (walkErr u); [discriminate|].
    destruct (IsDir u); [exact (IH Hpre)|]. simpl in Hu.
    unfold isJobFile in Hu. apply negb_true_iff, andb_false_iff in Hu.
    destruct Hu as [Hu|Hu]; rewrite Hu; simpl; [exact (IH Hpre)|].
    destruct (String.eqb (filepath.Ext (path u)) ".json"); exact (IH Hpre).
Qed.

Lemma pollLoop_blocked tr fs (n : nat) :
  snd (fst (scanInbox json_Unmarshal tr fs)) = None ->
  fst (pollLoop json_Unmarshal tr (repeat (Go fs) n)) = Polling.
Proof.
  intros Hnone. induction n as [|n IH]; [reflexivity|].
  cbn [repeat pollLoop].
  destruct (scanInbox_outcomes tr fs) as [(p & j & Hscan)|(serr & Hscan)].
  - rewrite Hscan in Hnone. discriminate.
  - rewrite Hscan. destruct serr; exact IH.
Qed.

(** X22. The scan of the inbox looks at the first job file of the walk
    only: what comes after it in the walk changes nothing. So when that
    first job file cannot be read, does not decode or holds an invalid job,
    the transport returns no job however often it scans, whatever valid job
    files come later in the inbox. *)
Theorem first_job_file_decides_the_scan tr (pre post : list visit) (v : visit)
    (readFile : string -> error + string) (n : nat) :
  forallb passedOver pre = true ->
  walkErr v = None -> IsDir v = false -> isJobFile (path v) = true ->
  scanInbox json_Unmarshal tr {| walk := pre ++ v :: post; ReadFile := readFile |}
  = scanInbox json_Unmarshal tr {| walk := [v]; ReadFile := readFile |}
  /\ (snd (fst (scanInbox json_Unmarshal tr
                  {| walk := [v]; ReadFile := readFile |})) = None ->
      InboxDir tr <> "" ->
      fst (NextJob json_Unmarshal tr
             (repeat (Go {| walk := pre ++ v :: post; ReadFile := readFile |}) n))
      = Polling).
Proof.
  intros Hpre Herr Hdir Hjob.
  assert (Hsame :
    scanInbox json_Unmarshal tr {| walk := pre ++ v :: post; ReadFile := readFile |}
    = scanInbox json_Unmarshal tr {| walk := [v]; ReadFile := readFile |}).
  { unfold scanInbox. cbn [walk ReadFile].
    rewrite (walkInbox_first_job_file pre post v Hpre Herr Hdir Hjob).
    pose proof (walkInbox_first_job_file [] [] v eq_refl Herr Hdir Hjob) as Hone.
    cbn [app] in Hone. rewrite Hone. reflexivity. }
  split; [exact Hsame|]. intros Hnone Hinbox. unfold NextJob.
  apply String.eqb_neq in Hinbox. rewrite Hinbox.
  apply pollLoop_blocked. rewrite Hsame. exact Hnone.
Qed.

End FilesystemLoops.

Lemma filesystem_transport_returns_only_valid_job_files_witness :
  jobs.Validate sampleJob = None
  /\ transport.FilesystemTransport.isJobFile "inbox/b.job.json" = true.
Proof.
  destruct (filesystem_transport_returns_only_valid_job_files sampleUnmarshal
              sampleFilesystemTransport [transport.Go sampleInbox]) as [Hjob _].
  apply (Hjob sampleJob "inbox/b.job.json"). vm_compute. reflexivity.
Defined.

Lemma first_job_file_decides_the_scan_witness :
  fst (transport.FilesystemTransport.NextJob refusingUnmarshal
         sampleFilesystemTransport (repeat (transport.Go sampleInbox) 3))
  = transport.Polling.
Proof.
  destruct (first_job_file_decides_the_scan refusingUnmarshal
              sampleFilesystemTransport
              [ {| transport.FilesystemTransport.path := "inbox";
                   transport.FilesystemTransport.IsDir := true;
                   transport.FilesystemTransport.walkErr := None |};
                {| transport.FilesystemTransport.path := "inbox/a.job.json.result.json";
                   transport.FilesystemTransport.IsDir := false;
                   transport.FilesystemTransport.walkErr := None |} ]
              []
              {| transport.FilesystemTransport.path := "inbox/b.job.json";
                 transport.FilesystemTransport.IsDir := false;
                 transport.FilesystemTransport.walkErr := None |}
              (fun _ => inr "{}") 3) as [_ Hblocked].
  - vm_compute. reflexivity.
  - reflexivity.
  - reflexivity.
  - vm_compute. reflexivity.
  - apply Hblocked; [vm_compute; reflexivity | discriminate].
Defined.

(** ** The HTTP handlers of the controller *)

Section ControllerHandlers.
Import jobs controller controllerMain.

Implicit Types (s : Store) (j : JobDefinition) (r : Result).

Lemma TrimPrefix_of_prepended (p t : string) : strings.TrimPrefix (p +:+ t) p = t.
Proof.
  unfold strings.TrimPrefix, strings.HasPrefix.
  rewrite string_length_app, string_substring_app_l, String.eqb_refl.
  replace (String.length p <=? String.length p + String.length t)%nat with true
    by (symmetry; apply Nat.leb_le; lia).
  simpl.
  replace (String.length p + String.length t - String.length p)%nat
    with (String.length t) by lia.
  rewrite <- (Nat.add_0_r (String.length p)) at 1.
  rewrite string_substring_app_r. apply string_substring_whole.
Qed.

Lemma Validate_None_ID j : Validate j = None -> ID j <> "".
Proof.
  unfold Validate. destruct (String.eqb_spec (ID j) "") as [H|H]; [discriminate|].
  intros _. exact H.
Qed.

Lemma withJobID_same r : withJobID r (JobID r) = r.
Proof. destruct r; reflexivity. Qed.

Lemma result_path_names_job (jobID : string) :
  strings.TrimSuffix
    (strings.TrimPrefix (("/v1/jobs/" +:+ jobID) +:+ "/results") "/v1/jobs/")
    "/results" = jobID.
Proof.
  rewrite string_app_assoc, TrimPrefix_of_prepended. apply TrimSuffix_of_appended.
Qed.

(** X23. The life of a job through the handlers. For a valid job new to a
    store with an empty queue: submitting it answers 202; its status is then
    202 with pending; the next-job handler answers 200 with the job;
    its status is then 202 with running; posting a result for it, with the
    job ID left empty in the body or equal to that of the path, answers 202;
    its status is then 200 with that result under the job's ID; and the
    next-job handler answers 204. *)
Theorem handlers_carry_a_job_from_submission_to_result s j r :
  Validate j = None ->
  records s !! ID j = None ->
  queue s = [] ->
  JobID r = "" \/ JobID r = ID j ->
  exists s1 s2 s3,
    handleSubmit s (inr j) = (s1, {| StatusCode := 202; Body := NoBody |})
    /\ handleStatus s1 ("/v1/jobs/" +:+ ID j)
       = {| StatusCode := 202; Body := StatusJSON StatusPending |}
    /\ handleNext s1 = (s2, Returned {| StatusCode := 200; Body := JobJSON j |})
    /\ handleStatus s2 ("/v1/jobs/" +:+ ID j)
       = {| StatusCode := 202; Body := StatusJSON StatusRunning |}
    /\ handleResult s2 (("/v1/jobs/" +:+ ID j) +:+ "/results") (inr r)
       = (s3, {| StatusCode := 202; Body := NoBody |})
    /\ handleStatus s3 ("/v1/jobs/" +:+ ID j)
       = {| StatusCode := 200; Body := ResultJSON (withJobID r (ID j)) |}
    /\ handleNext s3 = (s3, Returned {| StatusCode := 204; Body := NoBody |}).
Proof.
  intros Hvalid Hfresh Hempty Hid.
  pose proof (Validate_None_ID j Hvalid) as Hne. apply String.eqb_neq in Hne.
  assert (Hres : (if String.eqb (JobID r) "" then withJobID r (ID j) else r)
                 = withJobID r (ID j)).
  { destruct (String.eqb (JobID r) "") eqn:Hr; [reflexivity|].
    destruct Hid as [Hid|Hid]; [rewrite Hid in Hr; discriminate|].
    rewrite <- Hid. symmetry. apply withJobID_same. }
  unfold handleSubmit, handleStatus, handleNext, handleResult.
  rewrite result_path_names_job, !TrimPrefix_of_prepended, Hne, Hres.
  unfold Enqueue. rewrite Hvalid, Hfresh, Hempty. simpl.
  eexists. eexists. eexists. split; [reflexivity|].
  unfold Lookup at 1. simpl. rewrite lookup_insert_eq. simpl.
  split; [reflexivity|].
  unfold Next at 1. simpl. rewrite lookup_insert_eq. simpl.
  split; [reflexivity|].
  unfold Lookup at 1. simpl. rewrite lookup_insert_eq. simpl.
  split; [reflexivity|].
  unfold Complete. simpl. rewrite lookup_insert_eq. simpl.
  split; [reflexivity|].
  unfold Lookup, Next. simpl. rewrite lookup_insert_eq. simpl.
  split; reflexivity.
Qed.

Lemma handlers_carry_a_job_from_submission_to_result_witness :
  exists s1 s2 s3,
    handleSubmit NewStore (inr sampleJob)
    = (s1, {| StatusCode := 202; Body := NoBody |})
    /\ handleStatus s1 ("/v1/jobs/" +:+ ID sampleJob)
       = {| StatusCode := 202; Body := StatusJSON StatusPending |}
    /\ handleNext s1 = (s2, Returned {| StatusCode := 200; Body := JobJSON sampleJob |})
    /\ handleStatus s2 ("/v1/jobs/" +:+ ID sampleJob)
       = {| StatusCode := 202; Body := StatusJSON StatusRunning |}
    /\ handleResult s2 (("/v1/jobs/" +:+ ID sampleJob) +:+ "/results")
         (inr (sampleResult StatusSucceeded))
       = (s3, {| StatusCode := 202; Body := NoBody |})
    /\ handleStatus s3 ("/v1/jobs/" +:+ ID sampleJob)
       = {| StatusCode := 200;
            Body := ResultJSON (withJobID (sampleResult StatusSucceeded)
                                  (ID sampleJob)) |}
    /\ handleNext s3 = (s3, Returned {| StatusCode := 204; Body := NoBody |}).
Proof.
  apply (handlers_carry_a_job_from_submission_to_result NewStore sampleJob
           (sampleResult StatusSucceeded)).
  - vm_compute. reflexivity.
  - reflexivity.
  - reflexivity.
  - right. reflexivity.
Defined.

(** X24. When the body of a posted result names a job, that job is the one
    completed and the job named in the path is not looked at: the store
    after the handler is the store after [Complete] of the body's result,
    the answer is 202 when the body's job is known and 400 when it is not,
    and the record of the path's job, when it is another job, is as
    before. *)
Theorem posted_result_completes_the_job_of_its_body s r (pathID : string) :
  pathID <> "" ->
  JobID r <> "" ->
  fst (handleResult s (("/v1/jobs/" +:+ pathID) +:+ "/results") (inr r))
  = fst (Complete s r)
  /\ StatusCode (snd (handleResult s (("/v1/jobs/" +:+ pathID) +:+ "/results")
                        (inr r)))
     = (if bool_decide (is_Some (records s !! JobID r)) then 202 else 400)
  /\ (pathID <> JobID r ->
      records (fst (handleResult s (("/v1/jobs/" +:+ pathID) +:+ "/results")
                      (inr r))) !! pathID
      = records s !! pathID).
Proof.
  intros Hpath Hbody. apply String.eqb_neq in Hpath, Hbody.
  unfold handleResult. rewrite result_path_names_job, Hpath, Hbody.
  unfold Complete. destruct (records s !! JobID r) as [rec|] eqn:Hrec; simpl.
  - split; [reflexivity|].
    split; [reflexivity|]. intros Hne. apply lookup_insert_ne. congruence.
  - repeat split; reflexivity.
Qed.

Lemma posted_result_completes_the_job_of_its_body_witness :
  StatusCode (snd (handleResult sampleStore
                     (("/v1/jobs/" +:+ "other") +:+ "/results")
                     (inr (sampleResult StatusSucceeded))))
  = (if bool_decide (is_Some (records sampleStore
                                !! JobID (sampleResult StatusSucceeded)))
     then 202 else 400).
Proof.
  apply (posted_result_completes_the_job_of_its_body sampleStore
           (sampleResult StatusSucceeded) "other"); discriminate.
Defined.

(** X25. The submission handler answers 202 or 400; it answers 202 exactly
    when the body decodes to a job that [Validate] accepts and whose ID is
    new to the store, and when it answers 400 the store is as it was. *)
Theorem submission_is_accepted_or_leaves_store s (decoded : error + JobDefinition) :
  (StatusCode (snd (handleSubmit s decoded)) = 202
   <-> exists j, decoded = inr j /\ Validate j = None /\ records s !! ID j = None)
  /\ (StatusCode (snd (handleSubmit s decoded)) <> 202 ->
      StatusCode (snd (handleSubmit s decoded)) = 400
      /\ fst (handleSubmit s decoded) = s).
Proof.
  unfold handleSubmit. destruct decoded as [derr|j]; simpl.
  { split; [split; [discriminate | intros (j & H & _); discriminate] | auto]. }
  unfold Enqueue. destruct (Validate j) as [verr|] eqn:Hv; simpl.
  { split; [split; [discriminate | intros (j' & [= <-] & H & _); congruence] | auto]. }
  destruct (records s !! ID j) as [rec|] eqn:Hrec; simpl.
  { split; [split; [discriminate | intros (j' & [= <-] & _ & H); congruence] | auto]. }
  split; [split; [intros _; exists j; auto | reflexivity] | intros H; contradiction].
Qed.

End ControllerHandlers.

(** ** The command-line client *)

Section ClientProperties.
Import jobs orchcli.

Variable json_Unmarshal_result : string -> error + Result.

Lemma pollResult_waits (baseURL jobID : string) (xs rest : list answer) :
  forallb cliWaits xs = true ->
  fst (pollResult json_Unmarshal_result baseURL jobID (xs ++ rest))
  = fst (pollResult json_Unmarshal_result baseURL jobID rest)
  /\ snd (pollResult json_Unmarshal_result baseURL jobID (xs ++ rest))
     = flat_map (fun _ => [EvGet (baseURL +:+ "/v1/jobs/" +:+ jobID);
                           EvSleep (2 * Second)]) xs
       ++ snd (pollResult json_Unmarshal_result baseURL jobID rest)
  /\ length (snd (pollResult json_Unmarshal_result baseURL jobID (xs ++ rest)))
     = (2 * length xs
        + length (snd (pollResult json_Unmarshal_result baseURL jobID rest)))%nat.
Proof.
  induction xs as [|x xs IH]; intros Hwait; [repeat split; reflexivity|].
  simpl in Hwait. apply andb_true_iff in Hwait. destruct Hwait as [Hx Hxs].
  destruct (IH Hxs) as (IHres & IHevs & IHlen).
  cbn [app pollResult flat_map].
  destruct x as [err|code body]; simpl in Hx |- *.
  - rewrite IHres, IHlen, IHevs.
    split; [reflexivity|]. split; [reflexivity | lia].
  - rewrite Hx. simpl. rewrite IHres, IHlen, IHevs.
    split; [reflexivity|]. split; [reflexivity | lia].
Qed.

(** X26. As long as the GET fails or the controller answers 202, the client
    makes one GET of the job's URL, sleeps two seconds and polls again; at
    the first other answer it makes its last GET and returns: nil, after
    printing the result, exactly when that answer is 200 with a body that
    decodes to a result, an error and nothing printed in every other case;
    what comes after that answer is never asked for. *)
Theorem client_polls_until_first_final_answer (baseURL jobID : string)
    (xs rest : list answer) (code : Z) (body : string) :
  forallb cliWaits xs = true ->
  code <> http.StatusAccepted ->
  fst (pollResult json_Unmarshal_result baseURL jobID xs) = None
  /\ snd (pollResult json_Unmarshal_result baseURL jobID xs)
     = flat_map (fun _ => [EvGet (baseURL +:+ "/v1/jobs/" +:+ jobID);
                           EvSleep (2 * Second)]) xs
  /\ fst (pollResult json_Unmarshal_result baseURL jobID
            (xs ++ Answer code body :: rest))
     = fst (pollResult json_Unmarshal_result baseURL jobID [Answer code body])
  /\ snd (pollResult json_Unmarshal_result baseURL jobID
            (xs ++ Answer code body :: rest))
     = flat_map (fun _ => [EvGet (baseURL +:+ "/v1/jobs/" +:+ jobID);
                           EvSleep (2 * Second)]) xs
       ++ snd (pollResult json_Unmarshal_result baseURL jobID [Answer code body])
  /\ (exists ret,
        fst (pollResult json_Unmarshal_result baseURL jobID [Answer code body])
        = Some ret
        /\ (ret = None <->
            code = http.StatusOK
            /\ exists result, json_Unmarshal_result body = inr result))
  /\ snd (pollResult json_Unmarshal_result baseURL jobID [Answer code body])
     = EvGet (baseURL +:+ "/v1/jobs/" +:+ jobID)
       :: (if code =? http.StatusOK
           then match json_Unmarshal_result body with
                | inr result => [EvPrint result]
                | inl _ => []
                end
           else [])
  /\ length (snd (pollResult json_Unmarshal_result baseURL jobID
                    (xs ++ Answer code body :: rest)))
     = (2 * length xs
        + length (snd (pollResult json_Unmarshal_result baseURL jobID
                         [Answer code body])))%nat.
Proof.
  intros Hwait Hcode. apply Z.eqb_neq in Hcode.
  assert (Hfinal : forall tail,
             pollResult json_Unmarshal_result baseURL jobID (Answer code body :: tail)
             = pollResult json_Unmarshal_result baseURL jobID [Answer code body]).
  { intros tail. cbn [pollResult]. rewrite Hcode.
    destruct (code =? http.StatusOK); reflexivity. }
  destruct (pollResult_waits baseURL jobID xs [] Hwait) as (Hres0 & Hevs0 & _).
  rewrite app_nil_r in Hres0, Hevs0. cbn [pollResult snd] in Hevs0.
  rewrite app_nil_r in Hevs0.
  destruct (pollResult_waits baseURL jobID xs (Answer code body :: rest) Hwait)
    as (Hres & Hevs & Hlen).
  split; [exact Hres0|]. split; [exact Hevs0|].
  split; [rewrite Hres, Hfinal; reflexivity|].
  split; [rewrite Hevs, Hfinal; reflexivity|].
  split; [|split].
  - cbn [pollResult]. rewrite Hcode.
    destruct (Z.eqb_spec code http.StatusOK) as [Hok|Hok].
    + destruct (json_Unmarshal_result body) as [err|result] eqn:Hdec; simpl.
      * eexists. split; [reflexivity|].
        split; [discriminate | intros [_ [result H]]; discriminate].
      * eexists. split; [reflexivity|]. split; [eauto | reflexivity].
    + eexists. split; [reflexivity|].
      split; [discriminate | intros [H _]; contradiction].
  - cbn [pollResult]. rewrite Hcode.
    destruct (code =? http.StatusOK); [|reflexivity].
    destruct (json_Unmarshal_result body); reflexivity.
  - rewrite Hlen, Hfinal. reflexivity.
Qed.

Lemma lowerHex_not_blank (s : string) :
  s <> "" -> lowerHex s = true -> blank s = false.
Proof.
  destruct s as [|c s]; [intros H; contradiction H; reflexivity|].
  intros _ Hhex. unfold blank. cbn [list_ascii_of_string].
  cbn [lowerHex] in Hhex.
  destruct (String.index 0 (String c "") hex.hextable) eqn:Hidx; [|discriminate].
  clear Hhex. rewrite blankRunes_cons.
  destruct (list_ascii_of_string s) as [|b1 [|b2 r2]];
    destruct c as [[] [] [] [] [] [] [] []];
    first [reflexivity | vm_compute in Hidx; discriminate].
Qed.

(** X27. The job ID the client settles on is never blank: an ID that is not
    blank is kept as given, and a blank or missing one is replaced by the 32
    hexadecimal digits of the 16 random bytes. *)
Theorem ensureJobID_is_never_blank (current : string) (random : list Z) :
  length random = 16%nat ->
  (forall b, In b random -> 0 <= b < 256) ->
  blank (ensureJobID current random) = false
  /\ ensureJobID current random <> ""
  /\ (blank current = false -> ensureJobID current random = current)
  /\ (blank current = true ->
      String.length (ensureJobID current random) = 32%nat
      /\ lowerHex (ensureJobID current random) = true).
Proof.
  intros Hlen Hrange. unfold ensureJobID. rewrite TrimSpace_empty.
  destruct (EncodeToString_shape random Hrange) as [Hhexlen Hhex].
  rewrite Hlen in Hhexlen. simpl in Hhexlen.
  assert (Hne : hex.EncodeToString random <> "")
    by (intros Heq; rewrite Heq in Hhexlen; discriminate).
  destruct (blank current) eqn:Hb; simpl.
  - split; [apply lowerHex_not_blank; assumption|]. split; [exact Hne|].
    split; [discriminate | auto].
  - split; [exact Hb|]. split; [intros Heq; rewrite Heq in Hb; discriminate|].
    split; [reflexivity | discriminate].
Qed.

End ClientProperties.

Lemma client_polls_until_first_final_answer_witness :
  orchcli.pollResult (fun _ => inr (sampleResult jobs.StatusSucceeded))
    "http://c:8080" "j1"
    ([orchcli.GetFails (errorString "refused"); orchcli.Answer 202 "{}"]
     ++ orchcli.Answer 200 "{}" :: [orchcli.Answer 500 ""])
  = (Some None,
     [orchcli.EvGet "http://c:8080/v1/jobs/j1"; orchcli.EvSleep (2 * Second);
      orchcli.EvGet "http://c:8080/v1/jobs/j1"; orchcli.EvSleep (2 * Second);
      orchcli.EvGet "http://c:8080/v1/jobs/j1";
      orchcli.EvPrint (sampleResult jobs.StatusSucceeded)]).
Proof.
  destruct (client_polls_until_first_final_answer
              (fun _ => inr (sampleResult jobs.StatusSucceeded))
              "http://c:8080" "j1"
              [orchcli.GetFails (errorString "refused"); orchcli.Answer 202 "{}"]
              [orchcli.Answer 500 ""] 200 "{}")
    as (_ & _ & Hret & Hevents & _ & Hlast & _);
    [reflexivity | discriminate |].
  apply injective_projections.
  - rewrite Hret. reflexivity.
  - rewrite Hevents, Hlast. reflexivity.
Defined.

Lemma ensureJobID_is_never_blank_witness :
  blank (orchcli.ensureJobID nbsp (repeat 171 16)) = false.
Proof.
  apply (ensureJobID_is_never_blank nbsp (repeat 171 16)).
  - reflexivity.
  - intros b Hin. apply repeat_spec in Hin. subst b. lia.
Defined.

Example ensureJobID_replaces_unicode_blank :
  orchcli.ensureJobID nbsp (repeat 171 16) = "abababababababababababababababab".
Proof. vm_compute. reflexivity. Qed.

Example validate_refuses_unicode_blank_username :
  jobs.CredentialBundle_Validate {| jobs.Username := nbsp; jobs.Password := "p" |}
  = Some (errors.New "username required")
  /\ jobs.CredentialBundle_Validate {| jobs.Username := loneA0; jobs.Password := "p" |}
     = None.
Proof. vm_compute. split; reflexivity. Qed.

(** ** [Next] on the stores that can be reached *)

Section ReachedStores.
Import jobs controller.

(** X28. On every store reached from the empty one by the four operations,
    [Next] returns and does not panic: with an empty queue it returns no job
    and leaves the store as it is; otherwise the record of the head of the
    queue exists, holds the job with that ID, and [Next] returns that job
    and removes exactly the head from the queue. *)
Theorem next_returns_on_every_reached_store (ops : list op) :
  match queue (run NewStore ops) with
  | [] => Next (run NewStore ops) = (run NewStore ops, Returned None)
  | jobID :: rest =>
      exists rec,
        records (run NewStore ops) !! jobID = Some rec
        /\ ID (job rec) = jobID
        /\ snd (Next (run NewStore ops)) = Returned (Some (job rec))
        /\ queue (fst (Next (run NewStore ops))) = rest
  end.
Proof.
  assert (Hq : queuedHaveRecords (run NewStore ops)).
  { apply run_keeps_queued. intros jobID Hin. inversion Hin. }
  assert (Hkeys : forall jobID rec, records (run NewStore ops) !! jobID = Some rec ->
     ID (job rec) = jobID /\ forall res, result rec = Some res -> JobID res = jobID).
  { apply run_keeps_keys. intros id rec Hrec. simpl in Hrec.
    rewrite lookup_empty in Hrec. discriminate. }
  unfold Next. destruct (queue (run NewStore ops)) as [|jobID rest] eqn:Hqueue;
    [reflexivity|].
  destruct (Hq jobID) as [rec Hrec]; [rewrite Hqueue; left|].
  exists rec. rewrite Hrec. simpl.
  split; [reflexivity|]. split; [exact (proj1 (Hkeys _ _ Hrec))|].
  split; reflexivity.
Qed.

End ReachedStores.
